(** * StreamIn: the capture stream of the audio HAL (audio/2.0/default/StreamIn.cpp)

    The file has two parts that run in two threads:

    - [ReadThread], the capture thread: it waits on an event flag, reads from
      the device, pushes the bytes to a data queue and a status record to a
      status queue, and wakes the consumer;
    - [StreamIn], the stream controller: [prepareForReading] sets a session
      up, [close] tears it down.

    Both are embedded as state-passing programs over a small state monad.
    What the code calls outside this file (the message queues, the event
    flag, the device, the thread library) is given by an explicit script of
    answers and of actions of the other parties, so that every definition
    evaluates on concrete inputs. *)

From Stdlib Require Import String.
From Stdlib Require Import Init.Byte.
From Stdlib Require Import ZArith List Bool Lia.
Import ListNotations.
Open Scope Z_scope.

(** ** A state monad, shared by the two parts *)

Definition M (S A : Type) : Type := S -> A * S.

Definition ret {S A : Type} (a : A) : M S A := fun s => (a, s).

Definition bind {S A B : Type} (m : M S A) (k : A -> M S B) : M S B :=
  fun s => let (a, s') := m s in k a s'.

Definition when {S : Type} (b : bool) (m : M S unit) : M S unit :=
  if b then m else ret tt.

Declare Scope monad_scope.
Delimit Scope monad_scope with monad.
Notation "x <- m ;; k" := (bind m (fun x => k))
  (at level 61, m at next level, right associativity) : monad_scope.
Notation "m ;; k" := (bind m (fun _ => k))
  (at level 61, right associativity) : monad_scope.
Open Scope monad_scope.

Definition exec {S A : Type} (m : M S A) (s : S) : S := snd (m s).
Definition eval {S A : Type} (m : M S A) (s : S) : A := fst (m s).

(** ** Types of the HAL interface *)

(** Modelled from the spec: the result codes of the HAL, OK and the error
    kinds; the enum Result is declared outside the file, which names OK,
    INVALID_ARGUMENTS, INVALID_STATE and NOT_SUPPORTED. *)
Inductive Result : Type :=
| OK
| NOT_INITIALIZED
| INVALID_ARGUMENTS
| INVALID_STATE
| NOT_SUPPORTED.

(** A line of the log: its level and its format string. *)
Inductive LogLevel : Type :=
| Warning
| Error.

Definition LogLine : Type := (LogLevel * string)%type.

(** [status_t]: 0 is OK, anything else an error. *)
Definition status_t : Type := Z.
Definition status_OK : status_t := 0.

(** [IStreamIn::ReadStatus], the record of one read cycle. *)
Record ReadStatus : Type := mkReadStatus {
  retval : Result;
  read : Z
}.

(** Modelled from the spec: the priority selector {NORMAL, URGENT}; the enum
    ThreadPriority is declared outside the file. *)
Inductive ThreadPriority : Type :=
| NORMAL
| URGENT_AUDIO.

Definition ThreadPriority_eqb (a b : ThreadPriority) : bool :=
  match a, b with
  | NORMAL, NORMAL | URGENT_AUDIO, URGENT_AUDIO => true
  | _, _ => false
  end.

(** Modelled from the spec: the two defined bits of the event-flag word; the
    enum MessageQueueFlagBits is declared outside the file. *)
Definition NOT_EMPTY : Z := Z.shiftl 1 0.
Definition NOT_FULL : Z := Z.shiftl 1 1.

Definition NS_PER_SEC : Z := 1000000000.

(** ** The message queues

    Modelled from the spec: the fast message queue is a library outside the
    file.  A queue has a fixed capacity; [availableToWrite] is the free
    capacity; [write] is non-blocking, fails without writing anything when
    the length exceeds the free capacity, and otherwise appends. *)
Record MQ (A : Type) : Type := mkMQ {
  quantumCount : Z;
  items : list A;
  valid : bool
}.
Arguments mkMQ {A}.
Arguments quantumCount {A}.
Arguments items {A}.
Arguments valid {A}.

Definition new_MQ {A : Type} (numElementsInQueue : Z) (isValid : bool) : MQ A :=
  mkMQ numElementsInQueue [] isValid.

Definition availableToRead {A : Type} (q : MQ A) : Z :=
  Z.of_nat (length (items q)).

Definition availableToWrite {A : Type} (q : MQ A) : Z :=
  quantumCount q - availableToRead q.

(** [write q buf count]: the first [count] elements at [buf]. *)
Definition mq_write {A : Type} (q : MQ A) (buf : list A) (count : Z)
  : bool * MQ A :=
  if count <=? availableToWrite q
  then (true, mkMQ (quantumCount q) (items q ++ firstn (Z.to_nat count) buf) (valid q))
  else (false, q).

(** The consumer's side: [count] elements leave the front of the queue, or
    nothing happens when fewer are there. *)
Definition mq_read {A : Type} (q : MQ A) (count : Z) : MQ A :=
  if (0 <=? count) && (count <=? availableToRead q)
  then mkMQ (quantumCount q) (skipn (Z.to_nat count) (items q)) (valid q)
  else q.

(** ** The event flag

    Modelled from the spec: the event flag is a library outside the file.
    [wake] ORs the mask into the shared word; a wait returns the bits of its
    mask that it observed and clears them. *)
Definition EventFlag : Type := Z.

Definition ef_wake (word mask : Z) : Z := Z.lor word mask.
Definition ef_observed (word mask : Z) : Z := Z.land word mask.
Definition ef_consume (word mask : Z) : Z := Z.ldiff word mask.

(** ** What the other parties do

    While the capture thread runs, the controller may store the stop flag
    and the consumer may wake bits of the flag word and take elements out of
    the two queues.  No other party writes to the queues. *)
Inductive ExtEvent : Type :=
| XStoreStop
| XWake (mask : Z)
| XReadData (count : Z)
| XReadStatus.

Definition ExtEvent_is_stop (x : ExtEvent) : bool :=
  match x with XStoreStop => true | _ => false end.

(** ** The capture thread *)

Module ReadThread.

(** What the thread does, and what happens around it, in order. *)
Inductive Event : Type :=
| EvLoadStop (v : bool)
| EvRequestPriority (prio : ThreadPriority) (err : Z)
| EvWait (mask timeoutNanoSeconds efState : Z)
| EvAvailableToWrite (n : Z)
| EvRead (bytes : Z) (readResult : Z)
| EvDataWrite (data : list byte) (count : Z) (ok : bool)
| EvStatusWrite (status : ReadStatus) (ok : bool)
| EvWake (mask : Z)
| EvExternal (x : ExtEvent).

(** The objects the members of ReadThread point to, and the scratch buffer. *)
Record World : Type := mkWorld {
  mStop : bool;
  mEfGroup : EventFlag;
  mDataMQ : MQ byte;
  mStatusMQ : MQ ReadStatus;
  mBuffer : list byte;
  trace : list Event;
  logs : list LogLine
}.

(** One turn of the loop: the actions of the other parties at the points
    where the thread can be overtaken, and the answer of the device. *)
Record EnvStep : Type := mkEnvStep {
  ev_wait : list ExtEvent;       (* while blocked in the event-flag wait *)
  ev_pre_read : list ExtEvent;   (* between availableToWrite and the read call *)
  ev_in_read : list ExtEvent;    (* while blocked in the device read *)
  dev_data : list byte;          (* what the device has to deliver *)
  dev_result : Z                 (* what the device read returns *)
}.

(** [ReadThread::ReadThread]: the members point to the objects of the
    stream, and the scratch buffer has [getQuantumCount()] bytes.  What the
    new buffer holds is not defined; it is taken as zero bytes. *)
Definition construct (stop : bool) (dataMQ : MQ byte) (statusMQ : MQ ReadStatus)
    (efGroup : EventFlag) : World :=
  mkWorld stop efGroup dataMQ statusMQ
          (repeat "000"%byte (Z.to_nat (quantumCount dataMQ))) [] [].

Definition emit (ev : Event) : M World unit :=
  fun w => (tt, mkWorld (mStop w) (mEfGroup w) (mDataMQ w) (mStatusMQ w)
                        (mBuffer w) (trace w ++ [ev]) (logs w)).

Definition ALOGW (msg : string) : M World unit :=
  fun w => (tt, mkWorld (mStop w) (mEfGroup w) (mDataMQ w) (mStatusMQ w)
                        (mBuffer w) (trace w) (logs w ++ [(Warning, msg)])).

Definition ext_apply (x : ExtEvent) (w : World) : World :=
  match x with
  | XStoreStop =>
      mkWorld true (mEfGroup w) (mDataMQ w) (mStatusMQ w)
              (mBuffer w) (trace w ++ [EvExternal x]) (logs w)
  | XWake mask =>
      mkWorld (mStop w) (ef_wake (mEfGroup w) mask) (mDataMQ w) (mStatusMQ w)
              (mBuffer w) (trace w ++ [EvExternal x]) (logs w)
  | XReadData count =>
      mkWorld (mStop w) (mEfGroup w) (mq_read (mDataMQ w) count) (mStatusMQ w)
              (mBuffer w) (trace w ++ [EvExternal x]) (logs w)
  | XReadStatus =>
      mkWorld (mStop w) (mEfGroup w) (mDataMQ w) (mq_read (mStatusMQ w) 1)
              (mBuffer w) (trace w ++ [EvExternal x]) (logs w)
  end.

Definition external (xs : list ExtEvent) : M World unit :=
  fun w => (tt, fold_left (fun w x => ext_apply x w) xs w).

(** [std::atomic_load_explicit(mStop, std::memory_order_acquire)] *)
Definition load_stop : M World bool :=
  fun w => (mStop w, exec (emit (EvLoadStop (mStop w))) w).

(** [mEfGroup->wait(mask, &efState, timeout)]: the other parties act while
    the thread is blocked; the result is [efState]. *)
Definition EventFlag_wait (mask timeoutNanoSeconds : Z) (xs : list ExtEvent)
  : M World Z :=
  external xs ;;
  fun w =>
    let efState := ef_observed (mEfGroup w) mask in
    (efState,
     mkWorld (mStop w) (ef_consume (mEfGroup w) mask) (mDataMQ w) (mStatusMQ w)
             (mBuffer w)
             (trace w ++ [EvWait mask timeoutNanoSeconds efState]) (logs w)).

(** [mEfGroup->wake(mask)] *)
Definition EventFlag_wake (mask : Z) : M World unit :=
  fun w =>
    (tt, mkWorld (mStop w) (ef_wake (mEfGroup w) mask) (mDataMQ w) (mStatusMQ w)
                 (mBuffer w) (trace w ++ [EvWake mask]) (logs w)).

(** [mDataMQ->availableToWrite()] *)
Definition DataMQ_availableToWrite : M World Z :=
  fun w => (availableToWrite (mDataMQ w),
            exec (emit (EvAvailableToWrite (availableToWrite (mDataMQ w)))) w).

(** The device fills at most [bytes] bytes at the start of the buffer. *)
Definition dev_fill (buf : list byte) (bytes : Z) (data : list byte) : list byte :=
  let d := firstn (Z.to_nat bytes) data in
  firstn (length buf) (d ++ skipn (length d) buf).

(** [mStream->read(mStream, &mBuffer[0], bytes)]: a blocking call. *)
Definition stream_read (bytes : Z) (e : EnvStep) : M World Z :=
  external (ev_pre_read e) ;;
  external (ev_in_read e) ;;
  fun w =>
    (dev_result e,
     mkWorld (mStop w) (mEfGroup w) (mDataMQ w) (mStatusMQ w)
             (dev_fill (mBuffer w) bytes (dev_data e))
             (trace w ++ [EvRead bytes (dev_result e)]) (logs w)).

(** [mDataMQ->write(&mBuffer[0], count)] *)
Definition DataMQ_write (count : Z) : M World bool :=
  fun w =>
    let (ok, q) := mq_write (mDataMQ w) (mBuffer w) count in
    (ok,
     mkWorld (mStop w) (mEfGroup w) q (mStatusMQ w) (mBuffer w)
             (trace w ++ [EvDataWrite (firstn (Z.to_nat count) (mBuffer w)) count ok])
             (logs w)).

(** [mStatusMQ->write(&status)] *)
Definition StatusMQ_write (status : ReadStatus) : M World bool :=
  fun w =>
    let (ok, q) := mq_write (mStatusMQ w) [status] 1 in
    (ok,
     mkWorld (mStop w) (mEfGroup w) (mDataMQ w) q (mBuffer w)
             (trace w ++ [EvStatusWrite status ok]) (logs w)).

Section WithAnalyzeStatus.

(** [Stream::analyzeStatus], which maps a negative status of the device to
    an error kind; it is defined outside the file. *)
Variable analyzeStatus : string -> Z -> Result.

(** [ReadThread::readyToRun]; [err] is the answer of [requestPriority]. *)
Definition readyToRun (mThreadPriority : ThreadPriority) (err : Z)
  : M World status_t :=
  (if negb (ThreadPriority_eqb mThreadPriority NORMAL) then
     emit (EvRequestPriority mThreadPriority err) ;;
     when (negb (err =? 0)) (ALOGW "failed to set priority %d for pid %d tid %d; error %d"%string)
   else ret tt) ;;
  ret status_OK.

(** The body of the [while] of [ReadThread::threadLoop]. *)
Definition loop_body (e : EnvStep) : M World unit :=
  efState <- EventFlag_wait NOT_FULL NS_PER_SEC (ev_wait e) ;;
  if Z.land efState NOT_FULL =? 0 then
    ret tt (* continue: nothing to do *)
  else
    availToWrite <- DataMQ_availableToWrite ;;
    readResult <- stream_read availToWrite e ;;
    status <-
      (if 0 <=? readResult then
         ok <- DataMQ_write readResult ;;
         when (negb ok) (ALOGW "data message queue write failed"%string) ;;
         ret (mkReadStatus OK readResult)
       else
         ret (mkReadStatus (analyzeStatus "read"%string readResult) 0)) ;;
    ok <- StatusMQ_write status ;;
    when (negb ok) (ALOGW "status message queue write failed"%string) ;;
    EventFlag_wake NOT_EMPTY.

(** [ReadThread::threadLoop]: the loop runs until the stop flag is seen;
    then the function returns [false].  The script gives one step per turn
    of the loop; [None] means that the script ended with the thread still in
    the loop. *)
Fixpoint threadLoop (script : list EnvStep) : M World (option bool) :=
  stop <- load_stop ;;
  if stop then ret (Some false)
  else
    match script with
    | [] => ret None
    | e :: script' => loop_body e ;; threadLoop script'
    end.

End WithAnalyzeStatus.

(** *** Points of one turn of the loop

    The worlds the thread sees at the points the properties speak about,
    each obtained by running the operations of the loop body up to there. *)

Definition wait_NOT_FULL (e : EnvStep) : M World Z :=
  EventFlag_wait NOT_FULL NS_PER_SEC (ev_wait e).

(** The bits the wait returns, and the world at its return. *)
Definition efState_seen (e : EnvStep) (w : World) : Z := eval (wait_NOT_FULL e) w.
Definition after_wait (e : EnvStep) (w : World) : World := exec (wait_NOT_FULL e) w.

(** The turn goes on to the device read, instead of [continue]. *)
Definition reaches_read (e : EnvStep) (w : World) : bool :=
  negb (Z.land (efState_seen e w) NOT_FULL =? 0).

(** The value of [availToWrite], and the world after the query. *)
Definition availToWrite_seen (e : EnvStep) (w : World) : Z :=
  eval DataMQ_availableToWrite (after_wait e w).
Definition after_query (e : EnvStep) (w : World) : World :=
  exec DataMQ_availableToWrite (after_wait e w).

(** The world at the moment the device read is called, and at its return. *)
Definition at_read_call (e : EnvStep) (w : World) : World :=
  exec (external (ev_pre_read e)) (after_query e w).
Definition after_read (e : EnvStep) (w : World) : World :=
  exec (stream_read (availToWrite_seen e w) e) (after_query e w).

(** The rest of the loop body, from the return of the device read on. *)
Definition finish_turn (analyzeStatus : string -> Z -> Result) (readResult : Z)
  : M World unit :=
  status <-
    (if 0 <=? readResult then
       ok <- DataMQ_write readResult ;;
       when (negb ok) (ALOGW "data message queue write failed"%string) ;;
       ret (mkReadStatus OK readResult)
     else
       ret (mkReadStatus (analyzeStatus "read"%string readResult) 0)) ;;
  ok <- StatusMQ_write status ;;
  when (negb ok) (ALOGW "status message queue write failed"%string) ;;
  EventFlag_wake NOT_EMPTY.

(** *** Reading a trace *)

(** The events a run adds to the trace. *)
Definition new_events (w w' : World) : list Event :=
  skipn (length (trace w)) (trace w').

Definition is_read (ev : Event) : bool :=
  match ev with EvRead _ _ => true | _ => false end.

Definition is_wait (ev : Event) : bool :=
  match ev with EvWait _ _ _ => true | _ => false end.

Definition is_data_write (ev : Event) : bool :=
  match ev with EvDataWrite _ _ _ => true | _ => false end.

Definition is_status_write (ev : Event) : bool :=
  match ev with EvStatusWrite _ _ => true | _ => false end.

Definition count (p : Event -> bool) (t : list Event) : nat :=
  length (filter p t).

(** The device reads that come after the first store of the stop flag. *)
Fixpoint reads_after_stop (t : list Event) : nat :=
  match t with
  | [] => 0%nat
  | EvExternal XStoreStop :: t' => count is_read t'
  | _ :: t' => reads_after_stop t'
  end.

(** What the other parties' actions do to each object. *)
Definition ext_stop (xs : list ExtEvent) (b : bool) : bool :=
  fold_left (fun b x => match x with XStoreStop => true | _ => b end) xs b.

Definition ext_word (xs : list ExtEvent) (word : Z) : Z :=
  fold_left (fun wd x => match x with XWake m => ef_wake wd m | _ => wd end) xs word.

Definition ext_data (xs : list ExtEvent) (q : MQ byte) : MQ byte :=
  fold_left (fun q x => match x with XReadData c => mq_read q c | _ => q end) xs q.

Definition ext_status (xs : list ExtEvent) (q : MQ ReadStatus) : MQ ReadStatus :=
  fold_left (fun q x => match x with XReadStatus => mq_read q 1 | _ => q end) xs q.

(** The scratch buffer is as large as the data queue (the constructor
    allocates [getQuantumCount()] bytes). *)
Definition buffer_fits (w : World) : Prop :=
  Z.of_nat (length (mBuffer w)) = quantumCount (mDataMQ w).

(** No step of the script stores the stop flag. *)
Definition no_stop (e : EnvStep) : bool :=
  negb (existsb ExtEvent_is_stop (ev_wait e ++ ev_pre_read e ++ ev_in_read e)).

(** *** More readings of a trace and of a world *)

Definition is_wake (ev : Event) : bool :=
  match ev with EvWake _ => true | _ => false end.

Definition is_query (ev : Event) : bool :=
  match ev with EvAvailableToWrite _ => true | _ => false end.

(** A queue write that returned false. *)
Definition is_failed_write (ev : Event) : bool :=
  match ev with
  | EvDataWrite _ _ ok => negb ok
  | EvStatusWrite _ ok => negb ok
  | _ => false
  end.

(** The events that come after the first store of the stop flag. *)
Fixpoint after_stop (t : list Event) : list Event :=
  match t with
  | [] => []
  | EvExternal XStoreStop :: t' => t'
  | _ :: t' => after_stop t'
  end.

(** An action of another party that sets the NOT_FULL bit. *)
Definition wakes_NOT_FULL (x : ExtEvent) : bool :=
  match x with
  | XWake mask => negb (Z.land mask NOT_FULL =? 0)
  | _ => false
  end.

(** An event of the trace that sets the NOT_FULL bit. *)
Definition is_NOT_FULL_wake (ev : Event) : bool :=
  match ev with EvExternal x => wakes_NOT_FULL x | _ => false end.

(** 1 when the NOT_FULL bit of the flag word is set, 0 otherwise. *)
Definition pending_in (word : Z) : nat :=
  if Z.land word NOT_FULL =? 0 then 0%nat else 1%nat.

Definition pending (w : World) : nat := pending_in (mEfGroup w).


(** The lines a run adds to the log. *)
Definition new_logs (w w' : World) : list LogLine :=
  skipn (length (logs w)) (logs w').

(** A status write whose record reports no negative count, and a count
    other than zero only together with OK. *)
Definition sane_status (ev : Event) : Prop :=
  match ev with
  | EvStatusWrite st _ => 0 <= read st /\ (read st <> 0 -> retval st = OK)
  | _ => True
  end.

End ReadThread.

(** ** The stream controller *)

Module StreamIn.

(** A queue descriptor, as handed to the client: the one of a queue, or the
    default-constructed (empty) one. *)
Inductive Descriptor : Type :=
| EmptyDescriptor
| DescriptorOf (numElementsInQueue : Z).

Definition getDesc {A : Type} (q : MQ A) : Descriptor :=
  DescriptorOf (quantumCount q).

(** The calls the controller makes on its collaborators, in order. *)
Inductive Call : Type :=
| CallNewDataMQ (numElementsInQueue : Z)
| CallNewStatusMQ (numElementsInQueue : Z)
| CallCreateEventFlag
| CallNewReadThread (threadPriority : ThreadPriority)
| CallRun
| CallStoreStop
| CallRequestExitAndWait
| CallDeleteEventFlag
| CallCloseInputStream.

(** The ReadThread object as the controller sees it. *)
Record Thread : Type := mkThread {
  mThreadPriority : ThreadPriority;
  running : bool
}.

(** The members of StreamIn the two operations use, and what they did. *)
Record State : Type := mkState {
  mIsClosed : bool;
  mEfGroup : option EventFlag;
  mStopReadThread : bool;
  mDataMQ : option (MQ byte);
  mStatusMQ : option (MQ ReadStatus);
  mReadThread : option Thread;
  calls : list Call;
  logs : list LogLine
}.

(** [StreamIn::StreamIn] *)
Definition init : State :=
  mkState false None false None None None [] [].

(** What the collaborators answer during [prepareForReading]. *)
Record SetupEnv : Type := mkSetupEnv {
  data_valid : bool;                (* tempDataMQ->isValid() *)
  status_valid : bool;              (* tempStatusMQ->isValid() *)
  create_status : status_t;         (* EventFlag::createEventFlag *)
  create_flag : option EventFlag;   (* what it leaves in mEfGroup *)
  run_status : status_t             (* mReadThread->run *)
}.

(** What the collaborators answer during [close]. *)
Record CloseEnv : Type := mkCloseEnv {
  exit_status : status_t;           (* mReadThread->requestExitAndWait *)
  delete_status : status_t          (* EventFlag::deleteEventFlag *)
}.

Definition gets {A : Type} (f : State -> A) : M State A := fun s => (f s, s).

Definition call (c : Call) : M State unit :=
  fun s => (tt, mkState (mIsClosed s) (mEfGroup s) (mStopReadThread s) (mDataMQ s)
                        (mStatusMQ s) (mReadThread s) (calls s ++ [c]) (logs s)).

Definition ALOG (level : LogLevel) (msg : string) : M State unit :=
  fun s => (tt, mkState (mIsClosed s) (mEfGroup s) (mStopReadThread s) (mDataMQ s)
                        (mStatusMQ s) (mReadThread s) (calls s)
                        (logs s ++ [(level, msg)])).

Definition ALOGE : string -> M State unit := ALOG Error.
Definition ALOGW : string -> M State unit := ALOG Warning.

Definition set_mIsClosed (b : bool) : M State unit :=
  fun s => (tt, mkState b (mEfGroup s) (mStopReadThread s) (mDataMQ s)
                        (mStatusMQ s) (mReadThread s) (calls s) (logs s)).

Definition set_mEfGroup (f : option EventFlag) : M State unit :=
  fun s => (tt, mkState (mIsClosed s) f (mStopReadThread s) (mDataMQ s)
                        (mStatusMQ s) (mReadThread s) (calls s) (logs s)).

Definition set_mStopReadThread (b : bool) : M State unit :=
  fun s => (tt, mkState (mIsClosed s) (mEfGroup s) b (mDataMQ s)
                        (mStatusMQ s) (mReadThread s) (calls s) (logs s)).

Definition set_mDataMQ (q : option (MQ byte)) : M State unit :=
  fun s => (tt, mkState (mIsClosed s) (mEfGroup s) (mStopReadThread s) q
                        (mStatusMQ s) (mReadThread s) (calls s) (logs s)).

Definition set_mStatusMQ (q : option (MQ ReadStatus)) : M State unit :=
  fun s => (tt, mkState (mIsClosed s) (mEfGroup s) (mStopReadThread s) (mDataMQ s)
                        q (mReadThread s) (calls s) (logs s)).

Definition set_mReadThread (t : option Thread) : M State unit :=
  fun s => (tt, mkState (mIsClosed s) (mEfGroup s) (mStopReadThread s) (mDataMQ s)
                        (mStatusMQ s) t (calls s) (logs s)).

Definition isSome {A : Type} (o : option A) : bool :=
  match o with Some _ => true | None => false end.

(** The product of two [uint32_t] is a [uint32_t]. *)
Definition uint32_mul (a b : Z) : Z := (a * b) mod 2 ^ 32.

(** [new DataMQ(n, true)] and [new StatusMQ(n)] *)
Definition new_DataMQ (n : Z) (env : SetupEnv) : M State (MQ byte) :=
  call (CallNewDataMQ n) ;; ret (new_MQ n (data_valid env)).

Definition new_StatusMQ (n : Z) (env : SetupEnv) : M State (MQ ReadStatus) :=
  call (CallNewStatusMQ n) ;; ret (new_MQ n (status_valid env)).

(** [EventFlag::createEventFlag(word, &mEfGroup)] *)
Definition createEventFlag (env : SetupEnv) : M State status_t :=
  call CallCreateEventFlag ;;
  set_mEfGroup (create_flag env) ;;
  ret (create_status env).

(** [EventFlag::deleteEventFlag(&mEfGroup)]: the pointer is reset. *)
Definition deleteEventFlag (env : CloseEnv) : M State status_t :=
  call CallDeleteEventFlag ;;
  set_mEfGroup None ;;
  ret (delete_status env).

(** [mReadThread->run("reader", PRIORITY_URGENT_AUDIO)] *)
Definition run (env : SetupEnv) : M State status_t :=
  call CallRun ;;
  t <- gets mReadThread ;;
  match t with
  | Some t =>
      set_mReadThread (Some (mkThread (mThreadPriority t) (run_status env =? status_OK))) ;;
      ret (run_status env)
  | None => ret (run_status env)
  end.

(** [mReadThread->requestExitAndWait()]: on return the thread has left its
    loop. *)
Definition requestExitAndWait (env : CloseEnv) : M State status_t :=
  call CallRequestExitAndWait ;;
  t <- gets mReadThread ;;
  match t with
  | Some t =>
      set_mReadThread (Some (mkThread (mThreadPriority t) false)) ;;
      ret (exit_status env)
  | None => ret (exit_status env)
  end.

(** [StreamIn::close] *)
Definition close (env : CloseEnv) : M State Result :=
  closed <- gets mIsClosed ;;
  if closed then ret INVALID_STATE
  else
    set_mIsClosed true ;;
    readThread <- gets mReadThread ;;
    (if isSome readThread then
       call CallStoreStop ;;
       set_mStopReadThread true ;;
       status <- requestExitAndWait env ;;
       when (negb (status =? 0)) (ALOGE "read thread exit error: %s"%string)
     else ret tt) ;;
    efGroup <- gets mEfGroup ;;
    (if isSome efGroup then
       status <- deleteEventFlag env ;;
       when (negb (status =? 0)) (ALOGE "read MQ event flag deletion error: %s"%string)
     else ret tt) ;;
    call CallCloseInputStream ;;
    ret OK.

(** [StreamIn::prepareForReading]; the result is what the callback gets. *)
Definition prepareForReading (frameSize framesCount : Z)
    (threadPriority : ThreadPriority) (env : SetupEnv)
  : M State (Result * Descriptor * Descriptor) :=
  dataMQ <- gets mDataMQ ;;
  if isSome dataMQ then
    ALOGE "the client attempts to call prepareForReading twice"%string ;;
    ret (INVALID_STATE, EmptyDescriptor, EmptyDescriptor)
  else
    tempDataMQ <- new_DataMQ (uint32_mul frameSize framesCount) env ;;
    tempStatusMQ <- new_StatusMQ 1 env ;;
    if negb (valid tempDataMQ) || negb (valid tempStatusMQ) then
      when (negb (valid tempDataMQ)) (ALOGE "data MQ is invalid"%string) ;;
      when (negb (valid tempStatusMQ)) (ALOGE "status MQ is invalid"%string) ;;
      ret (INVALID_ARGUMENTS, EmptyDescriptor, EmptyDescriptor)
    else
      status <- createEventFlag env ;;
      efGroup <- gets mEfGroup ;;
      if negb (status =? status_OK) || negb (isSome efGroup) then
        ALOGE "failed creating event flag for data MQ: %s"%string ;;
        ret (INVALID_ARGUMENTS, EmptyDescriptor, EmptyDescriptor)
      else
        call (CallNewReadThread threadPriority) ;;
        set_mReadThread (Some (mkThread threadPriority false)) ;;
        status <- run env ;;
        if negb (status =? status_OK) then
          ALOGW "failed to start reader thread: %s"%string ;;
          ret (INVALID_ARGUMENTS, EmptyDescriptor, EmptyDescriptor)
        else
          set_mDataMQ (Some tempDataMQ) ;;
          set_mStatusMQ (Some tempStatusMQ) ;;
          ret (OK, getDesc tempDataMQ, getDesc tempStatusMQ).

(** [StreamIn::~StreamIn]: the stream is closed, whatever [close] returns. *)
Definition destroy (env : CloseEnv) : M State unit :=
  close env ;; ret tt.

(** The conversion of an [int64_t] to [uint64_t]. *)
Definition to_uint64 (x : Z) : Z := x mod 2 ^ 64.

(** What the device answers to [get_capture_position]: its status, and
    what it has stored in [halFrames] and [halTime]. *)
Record CaptureAnswer : Type := mkCaptureAnswer {
  capture_status : Z;
  halFrames : Z;
  halTime : Z
}.

Definition Result_is_OK (r : Result) : bool :=
  match r with OK => true | _ => false end.

(** [StreamIn::getCapturePosition]; [get_capture_position] is [None] when
    the device has no such function, else its answer.  The result is what
    the callback gets: the result code, the frames and the time. *)
Definition getCapturePosition (analyzeStatus : string -> Z -> Result)
    (get_capture_position : option CaptureAnswer) : Result * Z * Z :=
  match get_capture_position with
  | None => (NOT_SUPPORTED, 0, 0)
  | Some answer =>
      let retval :=
        analyzeStatus "get_capture_position"%string (capture_status answer) in
      if Result_is_OK retval
      then (retval, to_uint64 (halFrames answer), to_uint64 (halTime answer))
      else (retval, 0, 0)
  end.

(** The operations a client can apply to a stream, with the answers of the
    collaborators, and the states they lead to from a new stream. *)
Inductive Op : Type :=
| OpPrepareForReading (frameSize framesCount : Z)
    (threadPriority : ThreadPriority) (env : SetupEnv)
| OpClose (env : CloseEnv).

Definition step (s : State) (op : Op) : State :=
  match op with
  | OpPrepareForReading frameSize framesCount threadPriority env =>
      exec (prepareForReading frameSize framesCount threadPriority env) s
  | OpClose env => exec (close env) s
  end.

Definition run_ops (ops : list Op) (s : State) : State :=
  fold_left step ops s.

Definition reachable (s : State) : Prop :=
  exists ops, s = run_ops ops init.

End StreamIn.

(** * Reading a state of the stream controller *)

Module Session.
Import StreamIn.

(** Nothing but the log differs between the two states. *)
Definition untouched (s s' : State) : Prop :=
  mIsClosed s' = mIsClosed s
  /\ mEfGroup s' = mEfGroup s
  /\ mStopReadThread s' = mStopReadThread s
  /\ mDataMQ s' = mDataMQ s
  /\ mStatusMQ s' = mStatusMQ s
  /\ mReadThread s' = mReadThread s
  /\ calls s' = calls s.

(** A session is established: both queues, the event flag and a running
    capture thread are there. *)
Definition established (s : State) : Prop :=
  isSome (mDataMQ s) = true
  /\ isSome (mStatusMQ s) = true
  /\ isSome (mEfGroup s) = true
  /\ exists prio, mReadThread s = Some (mkThread prio true).

(** The result code of a call of [prepareForReading]. *)
Definition setup_result (frameSize framesCount : Z) (prio : ThreadPriority)
    (env : SetupEnv) (s : State) : Result :=
  fst (fst (eval (prepareForReading frameSize framesCount prio env) s)).

(** One of the three failure branches of [prepareForReading] is taken. *)
Definition setup_fails (env : SetupEnv) : bool :=
  negb (data_valid env) || negb (status_valid env)
  || negb (create_status env =? status_OK) || negb (isSome (create_flag env))
  || negb (run_status env =? status_OK).

(** The two queue members are set together. *)
Definition queues_paired (s : State) : Prop :=
  isSome (mStatusMQ s) = isSome (mDataMQ s).

(** The world of the capture thread of a session, as its constructor sets
    it up from the members of the stream. *)
Definition thread_world (s : State) : option ReadThread.World :=
  match mDataMQ s, mStatusMQ s, mEfGroup s with
  | Some dataMQ, Some statusMQ, Some efGroup =>
      Some (ReadThread.construct (mStopReadThread s) dataMQ statusMQ efGroup)
  | _, _, _ => None
  end.

(** Both queues are valid. *)
Definition queues_valid (env : SetupEnv) : bool :=
  data_valid env && status_valid env.

(** The creation of the event flag succeeds. *)
Definition flag_created (env : SetupEnv) : bool :=
  (create_status env =? status_OK) && isSome (create_flag env).

Definition is_store_stop (c : Call) : bool :=
  match c with CallStoreStop => true | _ => false end.

Definition is_join (c : Call) : bool :=
  match c with CallRequestExitAndWait => true | _ => false end.

Definition is_delete_flag (c : Call) : bool :=
  match c with CallDeleteEventFlag => true | _ => false end.

Definition is_close_device (c : Call) : bool :=
  match c with CallCloseInputStream => true | _ => false end.

(** A call that only [close] makes. *)
Definition is_teardown (c : Call) : bool :=
  is_store_stop c || is_join c || is_delete_flag c || is_close_device c.

(** How often a kind of call was made on the way to a state. *)
Definition times (p : Call -> bool) (s : State) : nat :=
  length (filter p (calls s)).

(** The calls of [close] were made at most once each, and the device input
    stream was closed exactly when the stream is closed. *)
Definition torn_down_once (s : State) : Prop :=
  if mIsClosed s
  then times is_close_device s = 1%nat
       /\ (times is_store_stop s <= 1)%nat
       /\ (times is_join s <= 1)%nat
       /\ (times is_delete_flag s <= 1)%nat
  else times is_teardown s = 0%nat.

(** While the stream is open its stop flag is clear and a session, if there
    is one, is complete; the queue members, once set, come with the status
    queue and a thread object. *)
Definition coherent (s : State) : Prop :=
  (mIsClosed s = false ->
   mStopReadThread s = false
   /\ (isSome (mDataMQ s) = true -> established s))
  /\ (isSome (mDataMQ s) = true ->
      isSome (mStatusMQ s) = true /\ isSome (mReadThread s) = true).

End Session.

(** * The properties as the specification words them

    Where the code departs from a sentence of the specification, the
    sentence is kept here as a predicate, to be evaluated on a concrete
    run. *)

Module Stated.
Import ReadThread.

(** A successful read is followed by a write that puts its [n] bytes into
    the data queue, a write that puts the record {OK, n} into the status
    queue, and the wake, in that order. *)
Definition roundtrip (analyzeStatus : string -> Z -> Result)
    (e : EnvStep) (w : World) : Prop :=
  reaches_read e w = true -> 0 <= dev_result e ->
  exists bytes,
    Z.of_nat (length bytes) = dev_result e /\
    new_events (after_read e w) (exec (loop_body analyzeStatus e) w) =
    [EvDataWrite bytes (dev_result e) true;
     EvStatusWrite (mkReadStatus OK (dev_result e)) true;
     EvWake NOT_EMPTY].

(** A failed read is followed by no data write, and by a write that puts
    the record {mapped error, 0} into the status queue. *)
Definition error_reported (analyzeStatus : string -> Z -> Result)
    (e : EnvStep) (w : World) : Prop :=
  reaches_read e w = true -> dev_result e < 0 ->
  let w' := exec (loop_body analyzeStatus e) w in
  mDataMQ w' = mDataMQ (after_read e w) /\
  filter is_status_write (new_events w w') =
  [EvStatusWrite (mkReadStatus (analyzeStatus "read"%string (dev_result e)) 0) true].

(** When the data write fails after a successful read, the record {OK, n}
    still enters the status queue and the wake follows. *)
Definition dropped_data_reported (analyzeStatus : string -> Z -> Result)
    (e : EnvStep) (w : World) : Prop :=
  reaches_read e w = true -> 0 <= dev_result e ->
  availableToWrite (mDataMQ (after_read e w)) < dev_result e ->
  exists bytes,
    new_events (after_read e w) (exec (loop_body analyzeStatus e) w) =
    [EvDataWrite bytes (dev_result e) false;
     EvStatusWrite (mkReadStatus OK (dev_result e)) true;
     EvWake NOT_EMPTY].

(** When the stop flag is stored while the thread is blocked in the wait,
    the thread leaves the loop and reads the device no more. *)
Definition stop_in_wait (analyzeStatus : string -> Z -> Result)
    (e : EnvStep) (script : list EnvStep) (w : World) : Prop :=
  mStop w = false -> In XStoreStop (ev_wait e) ->
  eval (threadLoop analyzeStatus (e :: script)) w = Some false /\
  reads_after_stop
    (new_events w (exec (threadLoop analyzeStatus (e :: script)) w)) = 0%nat.

(** The first [close] stores the stop flag, joins the thread, deletes the
    event flag, closes the device stream, and returns OK. *)
Definition first_close (env : StreamIn.CloseEnv) (s : StreamIn.State) : Prop :=
  StreamIn.mIsClosed s = false ->
  eval (StreamIn.close env) s = OK /\
  StreamIn.calls (exec (StreamIn.close env) s) =
  StreamIn.calls s ++
  [StreamIn.CallStoreStop; StreamIn.CallRequestExitAndWait;
   StreamIn.CallDeleteEventFlag; StreamIn.CallCloseInputStream].

End Stated.

(** * Concrete runs *)

Module Sample.
Import ReadThread.

(** A mapping of device errors, to run the loop on concrete inputs. *)
Definition analyzeStatus (funcName : string) (status : Z) : Result :=
  if status =? 0 then OK else INVALID_STATE.

(** A new session: both queues empty, a data queue and a buffer of four
    bytes, no bit of the flag word set. *)
Definition fresh : World :=
  mkWorld false 0 (new_MQ 4 true) (new_MQ 1 true)
          ["0"; "0"; "0"; "0"]%byte [] [].

(** The same with a status record that the consumer has not taken yet. *)
Definition backlog : World :=
  mkWorld false 0 (new_MQ 4 true) (mkMQ 1 [mkReadStatus OK 2] true)
          ["0"; "0"; "0"; "0"]%byte [] [].

(** The consumer asks for data; the device delivers three bytes. *)
Definition three_bytes : EnvStep :=
  mkEnvStep [XWake NOT_FULL] [] [] ["a"; "b"; "c"]%byte 3.

(** The consumer asks for data; the device fails. *)
Definition device_error : EnvStep :=
  mkEnvStep [XWake NOT_FULL] [] [] [] (-5).

(** The consumer asks for data; the device claims more bytes than the
    queue has room for. *)
Definition too_many_bytes : EnvStep :=
  mkEnvStep [XWake NOT_FULL] [] [] ["a"; "b"; "c"; "d"]%byte 6.

(** The controller stores the stop flag while the thread waits, and no
    wake arrives. *)
Definition stop_then_timeout : EnvStep :=
  mkEnvStep [XStoreStop] [] [] [] 0.

(** The controller stores the stop flag while the thread waits, and then
    the consumer asks for data. *)
Definition stop_then_wake : EnvStep :=
  mkEnvStep [XStoreStop; XWake NOT_FULL] [] [] ["a"; "b"; "c"]%byte 3.

Definition setup_ok : StreamIn.SetupEnv :=
  StreamIn.mkSetupEnv true true 0 (Some 0) 0.

Definition setup_bad_data_queue : StreamIn.SetupEnv :=
  StreamIn.mkSetupEnv false true 0 (Some 0) 0.

Definition setup_no_thread : StreamIn.SetupEnv :=
  StreamIn.mkSetupEnv true true 0 (Some 0) (-12).

Definition close_ok : StreamIn.CloseEnv := StreamIn.mkCloseEnv 0 0.

(** A stream with a session. *)
Definition in_session : StreamIn.State :=
  exec (StreamIn.prepareForReading 2 8 URGENT_AUDIO setup_ok) StreamIn.init.

(** The consumer asks for data, and the controller stores the stop flag
    while the thread is blocked in the device read. *)
Definition stop_in_read : EnvStep :=
  mkEnvStep [XWake NOT_FULL] [] [XStoreStop] ["a"; "b"; "c"]%byte 3.

(** The consumer takes two bytes while the thread waits, asks for data, and
    takes the status record during the read. *)
Definition consumer_drains : EnvStep :=
  mkEnvStep [XReadData 2; XWake NOT_FULL] [] [XReadStatus] ["d"; "e"]%byte 2.

End Sample.

(** * Properties of the capture thread *)

Import ReadThread.

Lemma external_run (xs : list ExtEvent) (w : World) :
  external xs w = (tt, exec (external xs) w).
Proof. reflexivity. Qed.

Lemma external_spec (xs : list ExtEvent) (w : World) :
  exec (external xs) w =
  mkWorld (ext_stop xs (mStop w)) (ext_word xs (mEfGroup w))
          (ext_data xs (mDataMQ w)) (ext_status xs (mStatusMQ w))
          (mBuffer w) (trace w ++ map EvExternal xs) (logs w).
Proof.
  unfold exec, external; simpl.
  revert w; induction xs as [|x xs IH]; intros w; simpl.
  - rewrite app_nil_r; destruct w; reflexivity.
  - rewrite IH; destruct x; simpl; rewrite <- app_assoc; reflexivity.
Qed.

Lemma ext_stop_spec (xs : list ExtEvent) (b : bool) :
  ext_stop xs b = b || existsb ExtEvent_is_stop xs.
Proof.
  revert b; induction xs as [|x xs IH]; intros b; simpl.
  - now rewrite orb_false_r.
  - unfold ext_stop in *; destruct x; simpl; rewrite IH; simpl;
      rewrite ?orb_true_r, ?orb_false_r; reflexivity.
Qed.

Lemma mq_read_space {A : Type} (q : MQ A) (count : Z) :
  availableToWrite q <= availableToWrite (mq_read q count).
Proof.
  unfold mq_read.
  destruct (0 <=? count) eqn:H0; simpl; [|lia].
  destruct (count <=? availableToRead q) eqn:H1; simpl; [|lia].
  unfold availableToWrite, availableToRead in *; simpl.
  rewrite length_skipn. apply Z.leb_le in H0, H1. lia.
Qed.

Lemma mq_read_quantumCount {A : Type} (q : MQ A) (count : Z) :
  quantumCount (mq_read q count) = quantumCount q.
Proof. unfold mq_read; destruct (_ && _); reflexivity. Qed.

Lemma ext_data_space (xs : list ExtEvent) (q : MQ byte) :
  availableToWrite q <= availableToWrite (ext_data xs q).
Proof.
  revert q; induction xs as [|x xs IH]; intros q; simpl; [lia|].
  destruct x as [| |c|]; try apply IH.
  etransitivity; [apply (mq_read_space q c)|apply IH].
Qed.

Lemma ext_data_quantumCount (xs : list ExtEvent) (q : MQ byte) :
  quantumCount (ext_data xs q) = quantumCount q.
Proof.
  revert q; induction xs as [|x xs IH]; intros q; simpl; [reflexivity|].
  unfold ext_data in *; destruct x; rewrite IH; auto using mq_read_quantumCount.
Qed.

Lemma new_events_app (w w' : World) (l : list Event) :
  trace w' = trace w ++ l -> new_events w w' = l.
Proof.
  intros H; unfold new_events; rewrite H.
  rewrite skipn_app, skipn_all, Nat.sub_diag; reflexivity.
Qed.

Lemma loop_body_unfold (analyzeStatus : string -> Z -> Result)
    (e : EnvStep) (w : World) :
  loop_body analyzeStatus e w =
  if reaches_read e w
  then finish_turn analyzeStatus (dev_result e) (after_read e w)
  else (tt, after_wait e w).
Proof.
  unfold loop_body, reaches_read, efState_seen, after_read, after_query,
    availToWrite_seen, after_wait, wait_NOT_FULL, finish_turn, eval, exec, bind.
  destruct (EventFlag_wait NOT_FULL NS_PER_SEC (ev_wait e) w) as [efState w1]; simpl.
  destruct (Z.land efState NOT_FULL =? 0); reflexivity.
Qed.

Lemma filter_external (p : Event -> bool) (xs : list ExtEvent) :
  (forall x, p (EvExternal x) = false) ->
  filter p (map EvExternal xs) = [].
Proof.
  intros Hp; induction xs as [|x xs IH]; simpl; [reflexivity|].
  now rewrite Hp.
Qed.

Lemma new_events_trans (w r w' : World) (l1 l2 : list Event) :
  trace r = trace w ++ l1 -> trace w' = trace r ++ l2 ->
  new_events w w' = l1 ++ l2.
Proof.
  intros H1 H2; apply new_events_app. now rewrite H2, H1, app_assoc.
Qed.

Lemma efState_seen_spec (e : EnvStep) (w : World) :
  efState_seen e w = ef_observed (ext_word (ev_wait e) (mEfGroup w)) NOT_FULL.
Proof.
  unfold efState_seen, eval, wait_NOT_FULL, EventFlag_wait, bind.
  rewrite external_run, external_spec; reflexivity.
Qed.

Lemma after_wait_spec (e : EnvStep) (w : World) :
  after_wait e w =
  mkWorld (ext_stop (ev_wait e) (mStop w))
          (ef_consume (ext_word (ev_wait e) (mEfGroup w)) NOT_FULL)
          (ext_data (ev_wait e) (mDataMQ w)) (ext_status (ev_wait e) (mStatusMQ w))
          (mBuffer w)
          (trace w ++ map EvExternal (ev_wait e)
             ++ [EvWait NOT_FULL NS_PER_SEC (efState_seen e w)])
          (logs w).
Proof.
  rewrite efState_seen_spec.
  unfold after_wait, exec, wait_NOT_FULL, EventFlag_wait, bind.
  rewrite external_run, external_spec; simpl.
  now rewrite <- app_assoc.
Qed.

Lemma at_read_call_spec (e : EnvStep) (w : World) :
  at_read_call e w =
  let v := after_wait e w in
  mkWorld (ext_stop (ev_pre_read e) (mStop v)) (ext_word (ev_pre_read e) (mEfGroup v))
          (ext_data (ev_pre_read e) (mDataMQ v)) (ext_status (ev_pre_read e) (mStatusMQ v))
          (mBuffer v)
          (trace v ++ EvAvailableToWrite (availToWrite_seen e w)
             :: map EvExternal (ev_pre_read e))
          (logs v).
Proof.
  unfold at_read_call, after_query, availToWrite_seen.
  rewrite external_spec; simpl.
  now rewrite <- app_assoc.
Qed.

Lemma after_read_spec (e : EnvStep) (w : World) :
  after_read e w =
  let c := at_read_call e w in
  mkWorld (ext_stop (ev_in_read e) (mStop c)) (ext_word (ev_in_read e) (mEfGroup c))
          (ext_data (ev_in_read e) (mDataMQ c)) (ext_status (ev_in_read e) (mStatusMQ c))
          (dev_fill (mBuffer c) (availToWrite_seen e w) (dev_data e))
          (trace c ++ map EvExternal (ev_in_read e)
             ++ [EvRead (availToWrite_seen e w) (dev_result e)])
          (logs c).
Proof.
  unfold after_read, at_read_call, exec at 1, stream_read, bind.
  rewrite external_run, external_run, external_spec; simpl.
  now rewrite <- app_assoc.
Qed.

Lemma finish_turn_ok (analyzeStatus : string -> Z -> Result) (n : Z) (r : World) :
  0 <= n ->
  let bytes := firstn (Z.to_nat n) (mBuffer r) in
  let ok_data := n <=? availableToWrite (mDataMQ r) in
  let ok_status := 1 <=? availableToWrite (mStatusMQ r) in
  let w' := exec (finish_turn analyzeStatus n) r in
  trace w' = trace r ++ [EvDataWrite bytes n ok_data;
                         EvStatusWrite (mkReadStatus OK n) ok_status;
                         EvWake NOT_EMPTY]
  /\ mDataMQ w' = snd (mq_write (mDataMQ r) (mBuffer r) n)
  /\ mStatusMQ w' = snd (mq_write (mStatusMQ r) [mkReadStatus OK n] 1)
  /\ mStop w' = mStop r
  /\ mBuffer w' = mBuffer r
  /\ mEfGroup w' = ef_wake (mEfGroup r) NOT_EMPTY.
Proof.
  intros Hn; cbv zeta.
  unfold finish_turn, exec, bind.
  apply Z.leb_le in Hn; rewrite Hn.
  unfold DataMQ_write, StatusMQ_write, mq_write.
  destruct (n <=? availableToWrite (mDataMQ r)); simpl;
    destruct (1 <=? availableToWrite (mStatusMQ r)); simpl;
    rewrite <- ?app_assoc; simpl; repeat split; reflexivity.
Qed.

Lemma finish_turn_error (analyzeStatus : string -> Z -> Result) (n : Z) (r : World) :
  n < 0 ->
  let st := mkReadStatus (analyzeStatus "read"%string n) 0 in
  let ok_status := 1 <=? availableToWrite (mStatusMQ r) in
  let w' := exec (finish_turn analyzeStatus n) r in
  trace w' = trace r ++ [EvStatusWrite st ok_status; EvWake NOT_EMPTY]
  /\ mDataMQ w' = mDataMQ r
  /\ mStatusMQ w' = snd (mq_write (mStatusMQ r) [st] 1)
  /\ mStop w' = mStop r
  /\ mBuffer w' = mBuffer r
  /\ mEfGroup w' = ef_wake (mEfGroup r) NOT_EMPTY.
Proof.
  intros Hn; cbv zeta.
  unfold finish_turn, exec, bind.
  apply Z.leb_gt in Hn; rewrite Hn.
  unfold StatusMQ_write, mq_write; simpl.
  destruct (1 <=? availableToWrite (mStatusMQ r)); simpl;
    rewrite <- ?app_assoc; simpl; repeat split; reflexivity.
Qed.

Lemma mq_write_items {A : Type} (q : MQ A) (buf : list A) (count : Z) :
  items (snd (mq_write q buf count)) =
  items q ++ (if count <=? availableToWrite q then firstn (Z.to_nat count) buf else []).
Proof.
  unfold mq_write; destruct (count <=? availableToWrite q); simpl;
    [reflexivity | now rewrite app_nil_r].
Qed.

Lemma turn_before_read (e : EnvStep) (w : World) :
  trace (after_read e w) =
  trace w ++ map EvExternal (ev_wait e)
    ++ [EvWait NOT_FULL NS_PER_SEC (efState_seen e w);
        EvAvailableToWrite (availToWrite_seen e w)]
    ++ map EvExternal (ev_pre_read e ++ ev_in_read e)
    ++ [EvRead (availToWrite_seen e w) (dev_result e)].
Proof.
  rewrite after_read_spec; cbv zeta; cbn [trace].
  rewrite at_read_call_spec; cbv zeta; cbn [trace].
  rewrite after_wait_spec; cbn [trace].
  rewrite map_app, <- !app_assoc; cbn [app]. reflexivity.
Qed.

Lemma loop_body_read (analyzeStatus : string -> Z -> Result)
    (e : EnvStep) (w : World) :
  reaches_read e w = true ->
  exec (loop_body analyzeStatus e) w =
  exec (finish_turn analyzeStatus (dev_result e)) (after_read e w).
Proof. intros H; unfold exec at 1; now rewrite loop_body_unfold, H. Qed.

Lemma loop_body_idle (analyzeStatus : string -> Z -> Result)
    (e : EnvStep) (w : World) :
  reaches_read e w = false ->
  exec (loop_body analyzeStatus e) w = after_wait e w.
Proof. intros H; unfold exec at 1; now rewrite loop_body_unfold, H. Qed.

Lemma availableToWrite_le {A : Type} (q : MQ A) :
  availableToWrite q <= quantumCount q.
Proof. unfold availableToWrite, availableToRead; lia. Qed.

Lemma dev_fill_length (buf : list byte) (bytes : Z) (data : list byte) :
  length (dev_fill buf bytes data) = length buf.
Proof.
  unfold dev_fill.
  rewrite length_firstn, length_app, length_skipn; lia.
Qed.

Lemma dev_fill_prefix (buf : list byte) (bytes : Z) (data : list byte) :
  (length data <= Z.to_nat bytes)%nat -> (length data <= length buf)%nat ->
  firstn (length data) (dev_fill buf bytes data) = data.
Proof.
  intros Hreq Hbuf; unfold dev_fill.
  rewrite (firstn_all2 data) by exact Hreq.
  rewrite firstn_firstn, Nat.min_l by exact Hbuf.
  rewrite firstn_app, Nat.sub_diag, firstn_all; simpl.
  apply app_nil_r.
Qed.

Lemma availToWrite_seen_spec (e : EnvStep) (w : World) :
  availToWrite_seen e w = availableToWrite (ext_data (ev_wait e) (mDataMQ w)).
Proof.
  unfold availToWrite_seen, eval, DataMQ_availableToWrite; cbn [fst].
  now rewrite after_wait_spec.
Qed.

Lemma mDataMQ_at_read_call (e : EnvStep) (w : World) :
  mDataMQ (at_read_call e w) =
  ext_data (ev_pre_read e) (ext_data (ev_wait e) (mDataMQ w)).
Proof.
  rewrite at_read_call_spec; cbv zeta; cbn [mDataMQ].
  now rewrite after_wait_spec.
Qed.

Lemma mDataMQ_after_read (e : EnvStep) (w : World) :
  mDataMQ (after_read e w) =
  ext_data (ev_in_read e) (ext_data (ev_pre_read e) (ext_data (ev_wait e) (mDataMQ w))).
Proof.
  rewrite after_read_spec; cbv zeta; cbn [mDataMQ].
  now rewrite mDataMQ_at_read_call.
Qed.

Lemma mBuffer_after_read (e : EnvStep) (w : World) :
  mBuffer (after_read e w) =
  dev_fill (mBuffer w) (availToWrite_seen e w) (dev_data e).
Proof.
  rewrite after_read_spec; cbv zeta; cbn [mBuffer].
  rewrite at_read_call_spec; cbv zeta; cbn [mBuffer].
  now rewrite after_wait_spec.
Qed.

Lemma mStop_after_read (e : EnvStep) (w : World) :
  mStop (after_read e w) =
  mStop w || existsb ExtEvent_is_stop (ev_wait e ++ ev_pre_read e ++ ev_in_read e).
Proof.
  rewrite after_read_spec; cbv zeta; cbn [mStop].
  rewrite at_read_call_spec; cbv zeta; cbn [mStop].
  rewrite after_wait_spec; cbn [mStop].
  rewrite !ext_stop_spec, !existsb_app, !orb_assoc. reflexivity.
Qed.

Lemma mStop_after_wait (e : EnvStep) (w : World) :
  mStop (after_wait e w) = mStop w || existsb ExtEvent_is_stop (ev_wait e).
Proof. rewrite after_wait_spec; cbn [mStop]. apply ext_stop_spec. Qed.

(** ** One turn of the loop *)

(** C1 (as amended).  In every turn of the capture loop in which the device
    read returns n >= 0, the thread issues, in this order, one write of the
    first n bytes of its buffer to the data queue, one write of the record
    {OK, n} to the status queue, and the wake of NOT_EMPTY.  The n bytes
    enter the data queue exactly when n is at most its free space, and the
    record enters the status queue exactly when that queue has a free slot;
    a write that fails leaves its queue as it was.  When the buffer is as
    large as the queue, the bytes written are n in number, and they are the
    bytes of the device when it delivered n bytes within the request. *)
Theorem successful_read_turn (analyzeStatus : string -> Z -> Result)
    (e : EnvStep) (w : World) (n : Z) :
  reaches_read e w = true -> dev_result e = n -> 0 <= n ->
  let r := after_read e w in
  let w' := exec (loop_body analyzeStatus e) w in
  let bytes := firstn (Z.to_nat n) (mBuffer r) in
  let ok_data := n <=? availableToWrite (mDataMQ r) in
  let ok_status := 1 <=? availableToWrite (mStatusMQ r) in
  new_events w w' =
    map EvExternal (ev_wait e)
    ++ [EvWait NOT_FULL NS_PER_SEC (efState_seen e w);
        EvAvailableToWrite (availToWrite_seen e w)]
    ++ map EvExternal (ev_pre_read e ++ ev_in_read e)
    ++ [EvRead (availToWrite_seen e w) n;
        EvDataWrite bytes n ok_data;
        EvStatusWrite (mkReadStatus OK n) ok_status;
        EvWake NOT_EMPTY]
  /\ new_events r w' =
       [EvDataWrite bytes n ok_data;
        EvStatusWrite (mkReadStatus OK n) ok_status;
        EvWake NOT_EMPTY]
  /\ items (mDataMQ w') = items (mDataMQ r) ++ (if ok_data then bytes else [])
  /\ items (mStatusMQ w') =
       items (mStatusMQ r) ++ (if ok_status then [mkReadStatus OK n] else [])
  /\ (buffer_fits w -> ok_data = true -> Z.of_nat (length bytes) = n)
  /\ (buffer_fits w -> Z.of_nat (length (dev_data e)) = n ->
      n <= availToWrite_seen e w -> bytes = dev_data e).
Proof.
  intros Hreach Hres Hn; cbv zeta.
  rewrite (loop_body_read _ _ _ Hreach), Hres.
  destruct (finish_turn_ok analyzeStatus n (after_read e w) Hn)
    as (Htr & Hd & Hs & _).
  repeat split.
  - apply new_events_app. rewrite Htr, turn_before_read, Hres.
    rewrite <- !app_assoc. reflexivity.
  - now apply new_events_app.
  - rewrite Hd. apply mq_write_items.
  - rewrite Hs. now rewrite mq_write_items.
  - intros Hfit Hok. apply Z.leb_le in Hok.
    rewrite length_firstn, mBuffer_after_read, dev_fill_length.
    pose proof (availableToWrite_le (mDataMQ (after_read e w))) as Hle.
    rewrite ?mDataMQ_after_read, !ext_data_quantumCount in Hle.
    rewrite mDataMQ_after_read in Hok.
    unfold buffer_fits in Hfit. lia.
  - intros Hfit Hlen Hreq.
    pose proof (availableToWrite_le (ext_data (ev_wait e) (mDataMQ w))) as Hle.
    rewrite ext_data_quantumCount, <- availToWrite_seen_spec in Hle.
    unfold buffer_fits in Hfit.
    rewrite mBuffer_after_read.
    replace (Z.to_nat n) with (length (dev_data e)) by lia.
    apply dev_fill_prefix; lia.
Qed.

Lemma successful_read_turn_witness :
  new_events Sample.fresh
    (exec (loop_body Sample.analyzeStatus Sample.three_bytes) Sample.fresh) =
  [EvExternal (XWake NOT_FULL); EvWait NOT_FULL NS_PER_SEC NOT_FULL;
   EvAvailableToWrite 4; EvRead 4 3;
   EvDataWrite ["a"; "b"; "c"]%byte 3 true;
   EvStatusWrite (mkReadStatus OK 3) true; EvWake NOT_EMPTY]
  /\ items (mDataMQ
       (exec (loop_body Sample.analyzeStatus Sample.three_bytes) Sample.fresh)) =
     ["a"; "b"; "c"]%byte.
Proof.
  destruct (successful_read_turn Sample.analyzeStatus Sample.three_bytes
              Sample.fresh 3 eq_refl eq_refl ltac:(lia))
    as (Htrace & _ & Hdata & _).
  split; [exact Htrace | exact Hdata].
Defined.

(** C1 (as stated) fails when the consumer has not taken the previous status
    record: the device delivers three bytes, they enter the data queue, and
    the status write fails. *)
Lemma roundtrip_fails_under_backlog :
  ~ Stated.roundtrip Sample.analyzeStatus Sample.three_bytes Sample.backlog.
Proof.
  intros H.
  destruct (H eq_refl ltac:(cbv; discriminate)) as (bytes & _ & Heq).
  cbv in Heq. discriminate Heq.
Qed.

(** C3 (as amended).  In every turn of the capture loop in which the device
    read returns a negative code, the thread issues no write to the data
    queue, which stays as it was, and issues exactly one write to the status
    queue, of the record {mapped error kind, 0}, followed by the wake of
    NOT_EMPTY.  The record enters the status queue exactly when that queue
    has a free slot; otherwise the status queue stays as it was. *)
Theorem failed_read_turn (analyzeStatus : string -> Z -> Result)
    (e : EnvStep) (w : World) (n : Z) :
  reaches_read e w = true -> dev_result e = n -> n < 0 ->
  let r := after_read e w in
  let w' := exec (loop_body analyzeStatus e) w in
  let st := mkReadStatus (analyzeStatus "read"%string n) 0 in
  let ok_status := 1 <=? availableToWrite (mStatusMQ r) in
  new_events r w' = [EvStatusWrite st ok_status; EvWake NOT_EMPTY]
  /\ count is_data_write (new_events w w') = 0%nat
  /\ mDataMQ w' = mDataMQ r
  /\ filter is_status_write (new_events w w') = [EvStatusWrite st ok_status]
  /\ items (mStatusMQ w') = items (mStatusMQ r) ++ (if ok_status then [st] else []).
Proof.
  intros Hreach Hres Hn; cbv zeta.
  rewrite (loop_body_read _ _ _ Hreach), Hres.
  destruct (finish_turn_error analyzeStatus n (after_read e w) Hn)
    as (Htr & Hd & Hs & _).
  assert (Hall : new_events w (exec (finish_turn analyzeStatus n) (after_read e w)) =
                 map EvExternal (ev_wait e)
                 ++ [EvWait NOT_FULL NS_PER_SEC (efState_seen e w);
                     EvAvailableToWrite (availToWrite_seen e w)]
                 ++ map EvExternal (ev_pre_read e ++ ev_in_read e)
                 ++ [EvRead (availToWrite_seen e w) n;
                     EvStatusWrite
                       (mkReadStatus (analyzeStatus "read"%string n) 0)
                       (1 <=? availableToWrite (mStatusMQ (after_read e w)));
                     EvWake NOT_EMPTY]).
  { apply new_events_app. rewrite Htr, turn_before_read, Hres.
    rewrite <- !app_assoc. reflexivity. }
  repeat split.
  - now apply new_events_app.
  - rewrite Hall. unfold count.
    rewrite !filter_app, !filter_external by reflexivity. reflexivity.
  - exact Hd.
  - rewrite Hall.
    rewrite !filter_app, !filter_external by reflexivity. reflexivity.
  - rewrite Hs. now rewrite mq_write_items.
Qed.

Lemma failed_read_turn_witness :
  new_events Sample.fresh
    (exec (loop_body Sample.analyzeStatus Sample.device_error) Sample.fresh) =
  [EvExternal (XWake NOT_FULL); EvWait NOT_FULL NS_PER_SEC NOT_FULL;
   EvAvailableToWrite 4; EvRead 4 (-5);
   EvStatusWrite (mkReadStatus INVALID_STATE 0) true; EvWake NOT_EMPTY]
  /\ items (mStatusMQ
       (exec (loop_body Sample.analyzeStatus Sample.device_error) Sample.fresh)) =
     [mkReadStatus INVALID_STATE 0].
Proof.
  destruct (failed_read_turn Sample.analyzeStatus Sample.device_error
              Sample.fresh (-5) eq_refl eq_refl ltac:(lia))
    as (_ & _ & _ & _ & Hstatus).
  split; [reflexivity | exact Hstatus].
Defined.

(** C3 (as stated) fails when the consumer has not taken the previous status
    record: the device read fails and the write of the error record fails
    too, so no record of this turn is written to the status queue. *)
Lemma error_report_fails_under_backlog :
  ~ Stated.error_reported Sample.analyzeStatus Sample.device_error Sample.backlog.
Proof.
  intros H.
  destruct (H eq_refl ltac:(cbv; reflexivity)) as (_ & Heq).
  cbv in Heq. discriminate Heq.
Qed.

(** C9 (as amended).  In every turn of the capture loop in which the device
    read returns n >= 0 and the data-queue write fails for lack of free
    space, the data queue stays as it was, and the thread still issues the
    write of the record {OK, n} to the status queue, with the bytes read and
    not the bytes delivered, and still wakes NOT_EMPTY.  The record enters
    the status queue, where the consumer finds it, exactly when that queue
    has a free slot. *)
Theorem dropped_data_turn (analyzeStatus : string -> Z -> Result)
    (e : EnvStep) (w : World) (n : Z) :
  reaches_read e w = true -> dev_result e = n -> 0 <= n ->
  availableToWrite (mDataMQ (after_read e w)) < n ->
  let r := after_read e w in
  let w' := exec (loop_body analyzeStatus e) w in
  let ok_status := 1 <=? availableToWrite (mStatusMQ r) in
  new_events r w' =
    [EvDataWrite (firstn (Z.to_nat n) (mBuffer r)) n false;
     EvStatusWrite (mkReadStatus OK n) ok_status;
     EvWake NOT_EMPTY]
  /\ mDataMQ w' = mDataMQ r
  /\ items (mStatusMQ w') =
       items (mStatusMQ r) ++ (if ok_status then [mkReadStatus OK n] else [])
  /\ mEfGroup w' = ef_wake (mEfGroup r) NOT_EMPTY.
Proof.
  intros Hreach Hres Hn Hfull; cbv zeta.
  rewrite (loop_body_read _ _ _ Hreach), Hres.
  destruct (finish_turn_ok analyzeStatus n (after_read e w) Hn)
    as (Htr & Hd & Hs & _ & _ & Hef).
  apply Z.leb_gt in Hfull.
  repeat split.
  - apply new_events_app. now rewrite Htr, Hfull.
  - rewrite Hd. unfold mq_write. now rewrite Hfull.
  - rewrite Hs. now rewrite mq_write_items.
  - exact Hef.
Qed.

Lemma dropped_data_turn_witness :
  new_events (after_read Sample.too_many_bytes Sample.fresh)
    (exec (loop_body Sample.analyzeStatus Sample.too_many_bytes) Sample.fresh) =
  [EvDataWrite ["a"; "b"; "c"; "d"]%byte 6 false;
   EvStatusWrite (mkReadStatus OK 6) true; EvWake NOT_EMPTY]
  /\ items (mStatusMQ
       (exec (loop_body Sample.analyzeStatus Sample.too_many_bytes) Sample.fresh)) =
     [mkReadStatus OK 6].
Proof.
  destruct (dropped_data_turn Sample.analyzeStatus Sample.too_many_bytes
              Sample.fresh 6 eq_refl eq_refl ltac:(lia) ltac:(vm_compute; reflexivity))
    as (Htrace & _ & Hstatus & _).
  split; [exact Htrace | exact Hstatus].
Defined.

(** C9 (as stated) fails when the consumer has not taken the previous status
    record: the data write fails and the status write fails as well, so the
    consumer does not get the record {OK, n}. *)
Lemma dropped_data_unreported_under_backlog :
  ~ Stated.dropped_data_reported Sample.analyzeStatus
      Sample.too_many_bytes Sample.backlog.
Proof.
  intros H.
  destruct (H eq_refl ltac:(cbv; discriminate) ltac:(vm_compute; reflexivity))
    as (bytes & Heq).
  cbv in Heq. discriminate Heq.
Qed.

(** C4.  In every turn of the capture loop that reaches the device read, the
    loop performs exactly one read, and the number of bytes it requests is
    the value that availableToWrite() returned for the data queue in that
    same turn, with nothing but actions of the other parties in between.
    The request never exceeds the free space of the data queue, neither at
    the moment of the call nor at its return. *)
Theorem read_request_is_available_space (analyzeStatus : string -> Z -> Result)
    (e : EnvStep) (w : World) :
  reaches_read e w = true ->
  let a := availToWrite_seen e w in
  let w' := exec (loop_body analyzeStatus e) w in
  a = availableToWrite (mDataMQ (after_wait e w))
  /\ new_events (after_wait e w) (after_read e w) =
       EvAvailableToWrite a
       :: map EvExternal (ev_pre_read e ++ ev_in_read e)
       ++ [EvRead a (dev_result e)]
  /\ filter is_read (new_events w w') = [EvRead a (dev_result e)]
  /\ a <= availableToWrite (mDataMQ (at_read_call e w))
  /\ a <= availableToWrite (mDataMQ (after_read e w)).
Proof.
  intros Hreach; cbv zeta.
  repeat split.
  - apply new_events_app.
    rewrite turn_before_read, after_wait_spec; cbn [trace].
    rewrite <- !app_assoc. reflexivity.
  - rewrite (loop_body_read _ _ _ Hreach).
    destruct (Z_le_gt_dec 0 (dev_result e)) as [Hn|Hn].
    + destruct (finish_turn_ok analyzeStatus _ (after_read e w) Hn) as (Htr & _).
      rewrite (new_events_trans w _ _ _ _ (turn_before_read e w) Htr).
      rewrite !filter_app, !filter_external by reflexivity.
      reflexivity.
    + destruct (finish_turn_error analyzeStatus (dev_result e) (after_read e w)
                  ltac:(lia))
        as (Htr & _).
      rewrite (new_events_trans w _ _ _ _ (turn_before_read e w) Htr).
      rewrite !filter_app, !filter_external by reflexivity.
      reflexivity.
  - rewrite availToWrite_seen_spec, mDataMQ_at_read_call. apply ext_data_space.
  - rewrite availToWrite_seen_spec, mDataMQ_after_read.
    etransitivity; [apply ext_data_space|apply ext_data_space].
Qed.

Lemma read_request_is_available_space_witness :
  filter is_read
    (new_events Sample.backlog
       (exec (loop_body Sample.analyzeStatus Sample.three_bytes) Sample.backlog)) =
  [EvRead 4 3].
Proof.
  destruct (read_request_is_available_space Sample.analyzeStatus
              Sample.three_bytes Sample.backlog eq_refl)
    as (_ & _ & Hread & _).
  exact Hread.
Defined.

(** ** The loop *)

Lemma load_stop_spec (w : World) :
  load_stop w =
  (mStop w, mkWorld (mStop w) (mEfGroup w) (mDataMQ w) (mStatusMQ w) (mBuffer w)
                    (trace w ++ [EvLoadStop (mStop w)]) (logs w)).
Proof. reflexivity. Qed.

Lemma reaches_read_load_stop (e : EnvStep) (w : World) :
  reaches_read e (exec load_stop w) = reaches_read e w.
Proof. unfold reaches_read; now rewrite !efState_seen_spec. Qed.

Lemma threadLoop_stopped (analyzeStatus : string -> Z -> Result)
    (script : list EnvStep) (w : World) :
  mStop w = true ->
  threadLoop analyzeStatus script w = (Some false, exec load_stop w).
Proof.
  intros H; destruct script; unfold threadLoop, bind, exec;
    rewrite load_stop_spec, H; reflexivity.
Qed.

Lemma threadLoop_cons (analyzeStatus : string -> Z -> Result)
    (e : EnvStep) (script : list EnvStep) (w : World) :
  mStop w = false ->
  threadLoop analyzeStatus (e :: script) w =
  threadLoop analyzeStatus script
    (exec (loop_body analyzeStatus e) (exec load_stop w)).
Proof.
  intros H. cbn [threadLoop]. unfold bind at 1, exec.
  rewrite load_stop_spec, H; cbn [snd]. unfold bind at 1.
  destruct (loop_body analyzeStatus e _) as [[] w1]. reflexivity.
Qed.

Lemma threadLoop_nil (analyzeStatus : string -> Z -> Result) (w : World) :
  mStop w = false ->
  threadLoop analyzeStatus [] w = (None, exec load_stop w).
Proof.
  intros H; unfold threadLoop, bind, exec; rewrite load_stop_spec, H; reflexivity.
Qed.

(** The events of one turn: the wait, then, when the turn reaches the read,
    the query, the read, and a tail without any read or wait that ends with
    the wake. *)
Lemma turn_events (analyzeStatus : string -> Z -> Result)
    (e : EnvStep) (w : World) :
  exists tail,
    trace (exec (loop_body analyzeStatus e) w) =
    trace w ++ map EvExternal (ev_wait e)
      ++ EvWait NOT_FULL NS_PER_SEC (efState_seen e w)
      :: (if reaches_read e w
          then EvAvailableToWrite (availToWrite_seen e w)
               :: map EvExternal (ev_pre_read e ++ ev_in_read e)
               ++ EvRead (availToWrite_seen e w) (dev_result e)
               :: tail ++ [EvWake NOT_EMPTY]
          else [])
    /\ filter is_read tail = [] /\ filter is_wait tail = [].
Proof.
  destruct (reaches_read e w) eqn:Hreach.
  - rewrite (loop_body_read _ _ _ Hreach).
    destruct (Z_le_gt_dec 0 (dev_result e)) as [Hn|Hn].
    + destruct (finish_turn_ok analyzeStatus _ (after_read e w) Hn) as (Htr & _).
      eexists [_; _]. rewrite Htr, turn_before_read, <- !app_assoc.
      repeat split.
    + destruct (finish_turn_error analyzeStatus (dev_result e) (after_read e w)
                  ltac:(lia)) as (Htr & _).
      eexists [_]. rewrite Htr, turn_before_read, <- !app_assoc.
      repeat split.
  - rewrite (loop_body_idle _ _ _ Hreach), after_wait_spec.
    exists []. repeat split.
Qed.

Lemma mStop_turn (analyzeStatus : string -> Z -> Result)
    (e : EnvStep) (w : World) :
  mStop (exec (loop_body analyzeStatus e) w) =
  mStop w
  || existsb ExtEvent_is_stop
       (ev_wait e ++ (if reaches_read e w then ev_pre_read e ++ ev_in_read e else [])).
Proof.
  destruct (reaches_read e w) eqn:Hreach.
  - rewrite (loop_body_read _ _ _ Hreach).
    destruct (Z_le_gt_dec 0 (dev_result e)) as [Hn|Hn].
    + destruct (finish_turn_ok analyzeStatus _ (after_read e w) Hn)
        as (_ & _ & _ & Hstop & _).
      rewrite Hstop. apply mStop_after_read.
    + destruct (finish_turn_error analyzeStatus (dev_result e) (after_read e w)
                  ltac:(lia)) as (_ & _ & _ & Hstop & _).
      rewrite Hstop. apply mStop_after_read.
  - rewrite (loop_body_idle _ _ _ Hreach), app_nil_r. apply mStop_after_wait.
Qed.

Lemma existsb_stop_In (xs : list ExtEvent) :
  In XStoreStop xs -> existsb ExtEvent_is_stop xs = true.
Proof. intros H; apply existsb_exists; exists XStoreStop; auto. Qed.

Lemma reads_after_stop_external (xs : list ExtEvent) (rest : list Event) :
  In XStoreStop xs ->
  reads_after_stop (map EvExternal xs ++ rest) = count is_read rest.
Proof.
  induction xs as [|x xs IH]; intros Hin; [destruct Hin|].
  destruct x; simpl;
    try (apply IH; destruct Hin as [Hx|Hin]; [discriminate Hx|exact Hin]).
  unfold count. now rewrite filter_app, filter_external.
Qed.

Lemma count_app (p : Event -> bool) (l1 l2 : list Event) :
  count p (l1 ++ l2) = (count p l1 + count p l2)%nat.
Proof. unfold count; now rewrite filter_app, length_app. Qed.

Lemma count_external (p : Event -> bool) (xs : list ExtEvent) :
  (forall x, p (EvExternal x) = false) -> count p (map EvExternal xs) = 0%nat.
Proof. intros H; unfold count; now rewrite filter_external. Qed.

Lemma count_nil (p : Event -> bool) (l : list Event) :
  filter p l = [] -> count p l = 0%nat.
Proof. intros H; unfold count; now rewrite H. Qed.

Lemma count_cons (p : Event -> bool) (x : Event) (l : list Event) :
  count p (x :: l) = ((if p x then 1 else 0) + count p l)%nat.
Proof. unfold count; simpl; destruct (p x); reflexivity. Qed.

Lemma count_empty (p : Event -> bool) : count p [] = 0%nat.
Proof. reflexivity. Qed.

Ltac count_events :=
  repeat first
    [ rewrite count_cons
    | rewrite count_app
    | rewrite count_external by reflexivity
    | rewrite count_empty ];
  cbn [is_read is_wait is_data_write is_status_write].

(** C2 (as amended).  When the stop flag is stored while the capture thread
    is in the event-flag wait, the thread finishes the turn it is in and
    leaves the loop at the next test of the flag, returning false: the wait
    in progress is its last wait.  If that wait returns without NOT_FULL the
    thread performs no device read after the store; if it returns with
    NOT_FULL the thread performs exactly one more device read, with its
    writes and its wake, before it leaves. *)
Theorem stop_stored_during_wait (analyzeStatus : string -> Z -> Result)
    (e : EnvStep) (script : list EnvStep) (w : World) :
  mStop w = false -> In XStoreStop (ev_wait e) ->
  let w' := exec (threadLoop analyzeStatus (e :: script)) w in
  eval (threadLoop analyzeStatus (e :: script)) w = Some false
  /\ w' = exec load_stop (exec (loop_body analyzeStatus e) (exec load_stop w))
  /\ count is_wait (new_events w w') = 1%nat
  /\ reads_after_stop (new_events w w') =
     (if reaches_read e w then 1%nat else 0%nat).
Proof.
  intros Hrun Hstore; cbv zeta.
  assert (Hstop : mStop (exec (loop_body analyzeStatus e) (exec load_stop w)) = true).
  { rewrite mStop_turn, existsb_app, (existsb_stop_In _ Hstore).
    now rewrite orb_true_r. }
  pose proof (threadLoop_cons analyzeStatus e script w Hrun) as Hloop.
  rewrite (threadLoop_stopped _ _ _ Hstop) in Hloop.
  assert (Hexec : exec (threadLoop analyzeStatus (e :: script)) w =
                  exec load_stop (exec (loop_body analyzeStatus e) (exec load_stop w)))
    by (unfold exec at 1; now rewrite Hloop).
  rewrite Hexec. unfold eval; rewrite Hloop; cbn [fst].
  destruct (turn_events analyzeStatus e (exec load_stop w))
    as (tail & Htr & Hreads & Hwaits).
  rewrite reaches_read_load_stop in Htr.
  assert (Hall : new_events w
            (exec load_stop (exec (loop_body analyzeStatus e) (exec load_stop w))) =
          EvLoadStop false
          :: (map EvExternal (ev_wait e)
              ++ EvWait NOT_FULL NS_PER_SEC (efState_seen e (exec load_stop w))
              :: (if reaches_read e w
                  then EvAvailableToWrite (availToWrite_seen e (exec load_stop w))
                       :: map EvExternal (ev_pre_read e ++ ev_in_read e)
                       ++ EvRead (availToWrite_seen e (exec load_stop w)) (dev_result e)
                       :: tail ++ [EvWake NOT_EMPTY]
                  else []))
          ++ [EvLoadStop true]).
  { apply new_events_app.
    unfold exec at 1; rewrite load_stop_spec; cbn [snd trace].
    rewrite Hstop, Htr.
    unfold exec at 1; rewrite load_stop_spec; cbn [snd trace].
    rewrite Hrun, <- !app_assoc. reflexivity. }
  repeat split.
  - rewrite Hall.
    destruct (reaches_read e w); count_events;
      rewrite ?(count_nil _ _ Hwaits); reflexivity.
  - rewrite Hall. cbn [reads_after_stop app].
    rewrite <- app_assoc, (reads_after_stop_external _ _ Hstore).
    destruct (reaches_read e w); count_events;
      rewrite ?(count_nil _ _ Hreads); reflexivity.
Qed.

Lemma stop_stored_during_wait_witness :
  reads_after_stop
    (new_events Sample.fresh
       (exec (threadLoop Sample.analyzeStatus
                [Sample.stop_then_timeout; Sample.three_bytes]) Sample.fresh)) = 0%nat
  /\ reads_after_stop
       (new_events Sample.fresh
          (exec (threadLoop Sample.analyzeStatus
                   [Sample.stop_then_wake; Sample.three_bytes]) Sample.fresh)) = 1%nat.
Proof.
  split.
  - destruct (stop_stored_during_wait Sample.analyzeStatus Sample.stop_then_timeout
                [Sample.three_bytes] Sample.fresh eq_refl (or_introl eq_refl))
      as (_ & _ & _ & Hreads).
    exact Hreads.
  - destruct (stop_stored_during_wait Sample.analyzeStatus Sample.stop_then_wake
                [Sample.three_bytes] Sample.fresh eq_refl (or_introl eq_refl))
      as (_ & _ & _ & Hreads).
    exact Hreads.
Defined.

(** C2 (as stated) fails when the consumer's wake of NOT_FULL arrives after
    the store of the stop flag and before the wait returns: the thread does
    not test the flag after the wait and reads the device once more. *)
Lemma read_after_stop_stored_during_wait :
  ~ Stated.stop_in_wait Sample.analyzeStatus Sample.stop_then_wake []
      Sample.fresh.
Proof.
  intros H.
  destruct (H eq_refl (or_introl eq_refl)) as (_ & Hreads).
  vm_compute in Hreads. discriminate Hreads.
Qed.

Lemma no_stop_parts (e : EnvStep) :
  no_stop e = true ->
  existsb ExtEvent_is_stop (ev_wait e) = false
  /\ existsb ExtEvent_is_stop (ev_pre_read e ++ ev_in_read e) = false.
Proof.
  unfold no_stop; rewrite negb_true_iff, existsb_app, orb_false_iff; tauto.
Qed.

Lemma mStop_turn_no_stop (analyzeStatus : string -> Z -> Result)
    (e : EnvStep) (w : World) :
  no_stop e = true ->
  mStop (exec (loop_body analyzeStatus e) w) = mStop w.
Proof.
  intros H; destruct (no_stop_parts e H) as (Hw & Hr).
  rewrite mStop_turn, existsb_app, Hw.
  destruct (reaches_read e w); [rewrite Hr|]; simpl; now rewrite orb_false_r.
Qed.

Lemma turn_ends_with_wake (analyzeStatus : string -> Z -> Result)
    (e : EnvStep) (w : World) :
  reaches_read e w = true ->
  exists t, new_events w (exec (loop_body analyzeStatus e) w) = t ++ [EvWake NOT_EMPTY].
Proof.
  intros Hreach.
  destruct (turn_events analyzeStatus e w) as (tail & Htr & _).
  rewrite Hreach in Htr.
  exists (map EvExternal (ev_wait e)
          ++ EvWait NOT_FULL NS_PER_SEC (efState_seen e w)
          :: EvAvailableToWrite (availToWrite_seen e w)
          :: map EvExternal (ev_pre_read e ++ ev_in_read e)
          ++ EvRead (availToWrite_seen e w) (dev_result e) :: tail).
  apply new_events_app. rewrite Htr.
  repeat (rewrite <- ?app_assoc, <- ?app_comm_cons). reflexivity.
Qed.

Lemma threadLoop_runs (analyzeStatus : string -> Z -> Result)
    (script : list EnvStep) :
  forall w, mStop w = false -> forallb no_stop script = true ->
  exists l,
    eval (threadLoop analyzeStatus script) w = None
    /\ trace (exec (threadLoop analyzeStatus script) w) = trace w ++ l
    /\ count is_wait l = length script.
Proof.
  induction script as [|e script IH]; intros w Hrun Hquiet.
  - exists [EvLoadStop false].
    unfold eval, exec at 1; rewrite (threadLoop_nil _ _ Hrun); cbn [fst snd].
    unfold exec; rewrite load_stop_spec, Hrun. repeat split.
  - cbn [forallb] in Hquiet; apply andb_true_iff in Hquiet as (He & Hquiet).
    set (w1 := exec (loop_body analyzeStatus e) (exec load_stop w)).
    assert (Hrun1 : mStop w1 = false).
    { unfold w1. rewrite (mStop_turn_no_stop _ _ _ He).
      unfold exec; rewrite load_stop_spec; exact Hrun. }
    destruct (IH w1 Hrun1 Hquiet) as (l & Hev & Htr & Hcount).
    destruct (turn_events analyzeStatus e (exec load_stop w))
      as (tail & Htr1 & _ & Hwaits).
    fold w1 in Htr1.
    eexists.
    unfold eval, exec at 1; rewrite (threadLoop_cons _ _ _ _ Hrun).
    fold w1. fold (eval (threadLoop analyzeStatus script) w1).
    fold (exec (threadLoop analyzeStatus script) w1).
    split; [exact Hev|]. split.
    + rewrite Htr, Htr1.
      unfold exec at 1; rewrite load_stop_spec; cbn [snd trace].
      rewrite <- !app_assoc. reflexivity.
    + cbn [length]. rewrite <- Hcount.
      destruct (reaches_read e (exec load_stop w)); count_events;
        rewrite ?(count_nil _ _ Hwaits); reflexivity.
Qed.

(** C8.  Faults that are not fatal never end the operation they occur in.
    [readyToRun] returns OK whatever the priority request answers.  Every
    turn of the capture loop that reaches the device read ends with the wake
    of NOT_EMPTY, whether its data write and its status write succeed or
    fail, and no write changes the stop flag.  So, as long as nobody stores
    the stop flag, the loop performs every turn of the script, with one wait
    per turn, and is still running at its end. *)
Theorem faults_do_not_end_the_loop (analyzeStatus : string -> Z -> Result) :
  (forall prio err w, eval (readyToRun prio err) w = status_OK)
  /\ (forall e w, reaches_read e w = true ->
        (exists t, new_events w (exec (loop_body analyzeStatus e) w) =
                   t ++ [EvWake NOT_EMPTY])
        /\ mStop (exec (loop_body analyzeStatus e) w) = mStop (after_read e w))
  /\ (forall script w, mStop w = false -> forallb no_stop script = true ->
        eval (threadLoop analyzeStatus script) w = None
        /\ count is_wait
             (new_events w (exec (threadLoop analyzeStatus script) w)) =
           length script).
Proof.
  split; [intros prio err w | split; [intros e w Hreach; split
                                      | intros script w Hrun Hquiet; split]].
  - unfold readyToRun, eval, bind, when.
    destruct prio; cbn [ThreadPriority_eqb negb]; [reflexivity|].
    destruct (negb (err =? 0)); reflexivity.
  - now apply turn_ends_with_wake.
  - rewrite mStop_turn, Hreach, mStop_after_read. reflexivity.
  - destruct (threadLoop_runs analyzeStatus script w Hrun Hquiet) as (l & Hev & _).
    exact Hev.
  - destruct (threadLoop_runs analyzeStatus script w Hrun Hquiet)
      as (l & _ & Htr & Hc).
    now rewrite (new_events_app _ _ _ Htr).
Qed.

Lemma faults_do_not_end_the_loop_witness :
  eval (readyToRun URGENT_AUDIO (-1)) Sample.fresh = status_OK
  /\ eval (threadLoop Sample.analyzeStatus
             [Sample.three_bytes; Sample.three_bytes; Sample.three_bytes])
          Sample.backlog = None
  /\ count is_wait
       (new_events Sample.backlog
          (exec (threadLoop Sample.analyzeStatus
                   [Sample.three_bytes; Sample.three_bytes; Sample.three_bytes])
                Sample.backlog)) = 3%nat
  /\ logs (exec (threadLoop Sample.analyzeStatus
                   [Sample.three_bytes; Sample.three_bytes; Sample.three_bytes])
                Sample.backlog) =
     [(Warning, "status message queue write failed");
      (Warning, "data message queue write failed");
      (Warning, "status message queue write failed");
      (Warning, "data message queue write failed");
      (Warning, "status message queue write failed")]%string.
Proof.
  destruct (faults_do_not_end_the_loop Sample.analyzeStatus) as (Hready & _ & Hloop).
  destruct (Hloop [Sample.three_bytes; Sample.three_bytes; Sample.three_bytes]
              Sample.backlog eq_refl eq_refl) as (Hev & Hcount).
  split; [apply Hready|]. split; [exact Hev|]. split; [exact Hcount|reflexivity].
Defined.

(** ** What holds along every run of the loop *)

(** A relation between the world before and after, kept by the test of the
    stop flag and by every turn, is kept by the whole loop. *)
Lemma threadLoop_rel (analyzeStatus : string -> Z -> Result)
    (R : World -> World -> Prop) :
  (forall w, R w (exec load_stop w)) ->
  (forall e w, R w (exec (loop_body analyzeStatus e) w)) ->
  (forall w1 w2 w3, R w1 w2 -> R w2 w3 -> R w1 w3) ->
  forall script w, R w (exec (threadLoop analyzeStatus script) w).
Proof.
  intros Hload Hturn Htrans script.
  induction script as [|e script IH]; intros w.
  - destruct (mStop w) eqn:Hstop; unfold exec at 1.
    + rewrite (threadLoop_stopped _ _ _ Hstop). apply Hload.
    + rewrite (threadLoop_nil _ _ Hstop). apply Hload.
  - destruct (mStop w) eqn:Hstop; unfold exec at 1.
    + rewrite (threadLoop_stopped _ _ _ Hstop). apply Hload.
    + rewrite (threadLoop_cons _ _ _ _ Hstop).
      eapply Htrans; [apply Hload|].
      eapply Htrans; [apply Hturn|]. apply IH.
Qed.

Lemma finish_turn_spec (analyzeStatus : string -> Z -> Result) (n : Z) (r : World) :
  exec (finish_turn analyzeStatus n) r =
  let ok_data := n <=? availableToWrite (mDataMQ r) in
  let st := if 0 <=? n then mkReadStatus OK n
            else mkReadStatus (analyzeStatus "read"%string n) 0 in
  let ok_status := 1 <=? availableToWrite (mStatusMQ r) in
  mkWorld (mStop r) (ef_wake (mEfGroup r) NOT_EMPTY)
    (if 0 <=? n then snd (mq_write (mDataMQ r) (mBuffer r) n) else mDataMQ r)
    (snd (mq_write (mStatusMQ r) [st] 1))
    (mBuffer r)
    (trace r
     ++ (if 0 <=? n
         then [EvDataWrite (firstn (Z.to_nat n) (mBuffer r)) n ok_data] else [])
     ++ [EvStatusWrite st ok_status; EvWake NOT_EMPTY])
    (logs r
     ++ (if (0 <=? n) && negb ok_data
         then [(Warning, "data message queue write failed"%string)] else [])
     ++ (if negb ok_status
         then [(Warning, "status message queue write failed"%string)] else [])).
Proof.
  cbv zeta. unfold finish_turn, exec, bind.
  destruct (0 <=? n); cbn [andb].
  - unfold DataMQ_write, StatusMQ_write, mq_write.
    destruct (n <=? availableToWrite (mDataMQ r)); cbn;
      destruct (1 <=? availableToWrite (mStatusMQ r)); cbn;
      rewrite <- ?app_assoc, ?app_nil_r; reflexivity.
  - unfold StatusMQ_write, mq_write; cbn.
    destruct (1 <=? availableToWrite (mStatusMQ r)); cbn;
      rewrite <- ?app_assoc, ?app_nil_r; reflexivity.
Qed.

Lemma logs_after_read (e : EnvStep) (w : World) :
  logs (after_read e w) = logs w.
Proof.
  rewrite after_read_spec; cbv zeta; cbn [logs].
  rewrite at_read_call_spec; cbv zeta; cbn [logs].
  now rewrite after_wait_spec.
Qed.

(** The events and the log lines of one turn. *)
Lemma turn_exact (analyzeStatus : string -> Z -> Result) (e : EnvStep) (w : World) :
  let r := after_read e w in
  let n := dev_result e in
  let ok_data := n <=? availableToWrite (mDataMQ r) in
  let st := if 0 <=? n then mkReadStatus OK n
            else mkReadStatus (analyzeStatus "read"%string n) 0 in
  let ok_status := 1 <=? availableToWrite (mStatusMQ r) in
  let w' := exec (loop_body analyzeStatus e) w in
  trace w' =
    trace w ++ map EvExternal (ev_wait e)
    ++ EvWait NOT_FULL NS_PER_SEC (efState_seen e w)
    :: (if reaches_read e w
        then EvAvailableToWrite (availToWrite_seen e w)
             :: map EvExternal (ev_pre_read e ++ ev_in_read e)
             ++ EvRead (availToWrite_seen e w) n
             :: (if 0 <=? n
                 then [EvDataWrite (firstn (Z.to_nat n) (mBuffer r)) n ok_data]
                 else [])
             ++ [EvStatusWrite st ok_status; EvWake NOT_EMPTY]
        else [])
  /\ logs w' =
     logs w
     ++ (if reaches_read e w
         then (if (0 <=? n) && negb ok_data
               then [(Warning, "data message queue write failed"%string)] else [])
              ++ (if negb ok_status
                  then [(Warning, "status message queue write failed"%string)]
                  else [])
         else []).
Proof.
  cbv zeta. destruct (reaches_read e w) eqn:Hreach.
  - rewrite (loop_body_read _ _ _ Hreach), finish_turn_spec; cbv zeta; cbn [trace logs].
    rewrite turn_before_read, logs_after_read, <- !app_assoc. split; reflexivity.
  - rewrite (loop_body_idle _ _ _ Hreach), after_wait_spec; cbn [trace logs].
    rewrite app_nil_r. split; reflexivity.
Qed.

(** Along a run, the trace and the log only grow, and what they grow by
    satisfies every property that holds of the test of the stop flag, holds
    of each turn, and is kept by concatenation. *)
Lemma threadLoop_grows (analyzeStatus : string -> Z -> Result)
    (P : list Event -> list LogLine -> Prop) :
  (forall b, P [EvLoadStop b] []) ->
  (forall e w,
     exists l m,
       trace (exec (loop_body analyzeStatus e) w) = trace w ++ l
       /\ logs (exec (loop_body analyzeStatus e) w) = logs w ++ m /\ P l m) ->
  (forall l1 m1 l2 m2, P l1 m1 -> P l2 m2 -> P (l1 ++ l2) (m1 ++ m2)) ->
  forall script w,
  exists l m,
    trace (exec (threadLoop analyzeStatus script) w) = trace w ++ l
    /\ logs (exec (threadLoop analyzeStatus script) w) = logs w ++ m /\ P l m.
Proof.
  intros Hload Hturn Happ script w.
  apply (threadLoop_rel analyzeStatus
           (fun w w' => exists l m,
              trace w' = trace w ++ l /\ logs w' = logs w ++ m /\ P l m)).
  - intros v. exists [EvLoadStop (mStop v)], [].
    unfold exec; rewrite load_stop_spec; cbn. rewrite app_nil_r. auto.
  - exact Hturn.
  - intros w1 w2 w3 (l1 & m1 & Ht1 & Hl1 & HP1) (l2 & m2 & Ht2 & Hl2 & HP2).
    exists (l1 ++ l2), (m1 ++ m2).
    rewrite Ht2, Ht1, Hl2, Hl1, <- !app_assoc. auto.
Qed.

(** X2.  Along every run of the loop, each device read is preceded by one
    query of the free space and followed by exactly one status write and
    one wake; data writes are at most as many as reads, and reads at most
    as many as waits. *)
Theorem one_status_write_per_read (analyzeStatus : string -> Z -> Result)
    (script : list EnvStep) (w : World) :
  let t := new_events w (exec (threadLoop analyzeStatus script) w) in
  count is_status_write t = count is_read t
  /\ count is_wake t = count is_read t
  /\ count is_query t = count is_read t
  /\ (count is_data_write t <= count is_read t)%nat
  /\ (count is_read t <= count is_wait t)%nat.
Proof.
  cbv zeta.
  destruct (threadLoop_grows analyzeStatus
              (fun l _ =>
                 count is_status_write l = count is_read l
                 /\ count is_wake l = count is_read l
                 /\ count is_query l = count is_read l
                 /\ (count is_data_write l <= count is_read l)%nat
                 /\ (count is_read l <= count is_wait l)%nat))
    with (script := script) (w := w) as (l & m & Htr & _ & HP).
  - intros b. cbn. repeat split; lia.
  - intros e v. destruct (turn_exact analyzeStatus e v) as (Htr & Hlog).
    eexists; eexists. split; [exact Htr|]. split; [exact Hlog|].
    destruct (reaches_read e v); [destruct (0 <=? dev_result e)|];
      repeat (rewrite ?count_app, ?count_cons, ?count_empty,
                ?count_external by reflexivity);
      cbn [is_read is_wait is_data_write is_status_write is_wake is_query app];
      repeat (rewrite ?count_app, ?count_cons, ?count_empty,
                ?count_external by reflexivity);
      cbn [is_read is_wait is_data_write is_status_write is_wake is_query];
      repeat split; lia.
  - intros l1 _ l2 _ H1 H2. rewrite !count_app. lia.
  - rewrite (new_events_app _ _ _ Htr). exact HP.
Qed.

Lemma new_logs_app (w w' : World) (m : list LogLine) :
  logs w' = logs w ++ m -> new_logs w w' = m.
Proof.
  intros H; unfold new_logs; rewrite H.
  rewrite skipn_app, skipn_all, Nat.sub_diag; reflexivity.
Qed.

(** X4.  The loop logs one warning for every queue write that fails, and
    nothing else: along every run, the lines added to the log are as many as
    the failed writes of the trace, and each is one of the two warnings. *)
Theorem failed_writes_are_logged (analyzeStatus : string -> Z -> Result)
    (script : list EnvStep) (w : World) :
  let w' := exec (threadLoop analyzeStatus script) w in
  length (new_logs w w') = count is_failed_write (new_events w w')
  /\ Forall (fun line =>
               line = (Warning, "data message queue write failed"%string)
               \/ line = (Warning, "status message queue write failed"%string))
            (new_logs w w').
Proof.
  cbv zeta.
  destruct (threadLoop_grows analyzeStatus
              (fun l m =>
                 length m = count is_failed_write l
                 /\ Forall (fun line =>
                      line = (Warning, "data message queue write failed"%string)
                      \/ line = (Warning, "status message queue write failed"%string))
                      m))
    with (script := script) (w := w) as (l & m & Htr & Hlog & HP).
  - intros b. split; [reflexivity|constructor].
  - intros e v. destruct (turn_exact analyzeStatus e v) as (Htr & Hlog).
    eexists; eexists. split; [exact Htr|]. split; [exact Hlog|].
    destruct (reaches_read e v); [|split; [|constructor]].
    + destruct (0 <=? dev_result e);
        destruct (dev_result e <=? availableToWrite (mDataMQ (after_read e v)));
        destruct (1 <=? availableToWrite (mStatusMQ (after_read e v)));
        cbn [andb negb app length];
        (split;
         [ repeat (rewrite ?count_app, ?count_cons, ?count_empty,
                     ?count_external by reflexivity);
           cbn [is_failed_write negb]; reflexivity
         | repeat (apply Forall_cons; [auto|]); apply Forall_nil ]).
    + repeat (rewrite ?count_app, ?count_cons, ?count_empty,
                ?count_external by reflexivity).
      reflexivity.
  - intros l1 m1 l2 m2 (H1 & F1) (H2 & F2).
    rewrite length_app, count_app, H1, H2. split; [reflexivity|].
    apply Forall_app; auto.
  - rewrite (new_events_app _ _ _ Htr), (new_logs_app _ _ _ Hlog). exact HP.
Qed.












(** ** Wakes and reads *)

Lemma land_wake_without_NOT_FULL (word mask : Z) :
  Z.land mask NOT_FULL = 0 ->
  Z.land (ef_wake word mask) NOT_FULL = Z.land word NOT_FULL.
Proof.
  intros H. unfold ef_wake. now rewrite Z.land_lor_distr_l, H, Z.lor_0_r.
Qed.

Lemma land_consume_NOT_FULL (word : Z) :
  Z.land (ef_consume word NOT_FULL) NOT_FULL = 0.
Proof.
  unfold ef_consume.
  rewrite Z.ldiff_land, <- Z.land_assoc, (Z.land_comm (Z.lnot _)).
  now rewrite Z.land_lnot_diag, Z.land_0_r.
Qed.

Lemma pending_in_le (word : Z) : (pending_in word <= 1)%nat.
Proof. unfold pending_in; destruct (_ =? _); lia. Qed.

Lemma pending_ext_word (xs : list ExtEvent) (word : Z) :
  (pending_in (ext_word xs word)
   <= length (filter wakes_NOT_FULL xs) + pending_in word)%nat.
Proof.
  revert word; induction xs as [|x xs IH]; intros word; [cbn; lia|].
  unfold ext_word in *; destruct x as [|mask| |]; cbn [fold_left filter wakes_NOT_FULL];
    try apply IH.
  specialize (IH (ef_wake word mask)).
  destruct (Z.land mask NOT_FULL =? 0) eqn:Hm; cbn [negb length].
  - apply Z.eqb_eq in Hm.
    unfold pending_in at 2 in IH.
    rewrite (land_wake_without_NOT_FULL _ _ Hm) in IH. exact IH.
  - pose proof (pending_in_le (ef_wake word mask)). lia.
Qed.

Lemma reaches_read_pending (e : EnvStep) (w : World) :
  reaches_read e w = true ->
  pending_in (ext_word (ev_wait e) (mEfGroup w)) = 1%nat.
Proof.
  unfold reaches_read, pending_in. rewrite efState_seen_spec. unfold ef_observed.
  rewrite <- Z.land_assoc, Z.land_diag.
  destruct (_ =? 0); [discriminate|reflexivity].
Qed.

Lemma mEfGroup_after_read (e : EnvStep) (w : World) :
  mEfGroup (after_read e w) =
  ext_word (ev_pre_read e ++ ev_in_read e)
    (ef_consume (ext_word (ev_wait e) (mEfGroup w)) NOT_FULL).
Proof.
  rewrite after_read_spec; cbv zeta; cbn [mEfGroup].
  rewrite at_read_call_spec; cbv zeta; cbn [mEfGroup].
  rewrite after_wait_spec; cbn [mEfGroup].
  unfold ext_word. now rewrite fold_left_app.
Qed.

Lemma count_NOT_FULL_wakes (xs : list ExtEvent) :
  count is_NOT_FULL_wake (map EvExternal xs) = length (filter wakes_NOT_FULL xs).
Proof.
  unfold count. induction xs as [|x xs IH]; [reflexivity|].
  cbn. destruct (wakes_NOT_FULL x); cbn; now rewrite IH.
Qed.

(** X1.  Every device read answers a wake of NOT_FULL.  Along every run of
    the loop, the reads performed, plus one if NOT_FULL is still set in the
    flag word at the end, are at most the wakes of NOT_FULL received, plus
    one if NOT_FULL was set at the start: several wakes before one wait
    lead to one read, and without a wake the loop only polls. *)
Theorem reads_bounded_by_wakes (analyzeStatus : string -> Z -> Result)
    (script : list EnvStep) (w : World) :
  let w' := exec (threadLoop analyzeStatus script) w in
  let t := new_events w w' in
  (count is_read t + pending w' <= count is_NOT_FULL_wake t + pending w)%nat.
Proof.
  cbv zeta.
  assert (H : exists l,
             trace (exec (threadLoop analyzeStatus script) w) = trace w ++ l
             /\ (count is_read l + pending (exec (threadLoop analyzeStatus script) w)
                 <= count is_NOT_FULL_wake l + pending w)%nat).
  { revert w.
    apply (threadLoop_rel analyzeStatus
             (fun w w' => exists l,
                trace w' = trace w ++ l
                /\ (count is_read l + pending w'
                    <= count is_NOT_FULL_wake l + pending w)%nat)).
    - intros w. exists [EvLoadStop (mStop w)].
      unfold exec; rewrite load_stop_spec. split; [reflexivity|].
      unfold pending; cbn. lia.
    - intros e w. destruct (turn_exact analyzeStatus e w) as (Htr & _).
      eexists. split; [exact Htr|].
      pose proof (pending_ext_word (ev_wait e) (mEfGroup w)) as Hwait.
      change (pending w) with (pending_in (mEfGroup w)).
      destruct (reaches_read e w) eqn:Hreach.
      + rewrite (loop_body_read _ _ _ Hreach), finish_turn_spec; cbv zeta.
        unfold pending, pending_in at 1; cbn [mEfGroup].
        rewrite (land_wake_without_NOT_FULL _ NOT_EMPTY eq_refl).
        fold (pending_in (mEfGroup (after_read e w))).
        rewrite mEfGroup_after_read.
        pose proof (pending_ext_word (ev_pre_read e ++ ev_in_read e)
                      (ef_consume (ext_word (ev_wait e) (mEfGroup w)) NOT_FULL))
          as Hread.
        unfold pending_in at 2 in Hread.
        rewrite land_consume_NOT_FULL in Hread. cbn [Z.eqb] in Hread.
        rewrite (reaches_read_pending _ _ Hreach) in Hwait.
        destruct (0 <=? dev_result e);
          repeat (rewrite ?count_app, ?count_cons, ?count_empty,
                    ?count_NOT_FULL_wakes, ?count_external by reflexivity);
          cbn [is_read is_NOT_FULL_wake app];
          repeat (rewrite ?count_app, ?count_cons, ?count_empty,
                    ?count_NOT_FULL_wakes, ?count_external by reflexivity);
          cbn [is_read is_NOT_FULL_wake]; lia.
      + rewrite (loop_body_idle _ _ _ Hreach), after_wait_spec.
        unfold pending, pending_in at 1; cbn [mEfGroup].
        rewrite land_consume_NOT_FULL; cbn [Z.eqb].
        repeat (rewrite ?count_app, ?count_cons, ?count_empty,
                  ?count_NOT_FULL_wakes, ?count_external by reflexivity).
        cbn [is_read is_NOT_FULL_wake]. lia.
    - intros w1 w2 w3 (l1 & Ht1 & H1) (l2 & Ht2 & H2).
      exists (l1 ++ l2). rewrite Ht2, Ht1, <- app_assoc. split; [reflexivity|].
      rewrite !count_app. lia. }
  destruct H as (l & Htr & Hle).
  now rewrite (new_events_app _ _ _ Htr).
Qed.

(** ** Leaving the loop *)

Lemma turn_that_stores_stop_exits (analyzeStatus : string -> Z -> Result)
    (e : EnvStep) (post : list EnvStep) (w : World) :
  mStop w = false ->
  mStop (exec (loop_body analyzeStatus e) (exec load_stop w)) = true ->
  threadLoop analyzeStatus (e :: post) w =
  (Some false,
   exec load_stop (exec (loop_body analyzeStatus e) (exec load_stop w))).
Proof.
  intros Hrun Hstop.
  rewrite (threadLoop_cons _ _ _ _ Hrun). now apply threadLoop_stopped.
Qed.

Lemma turn_waits_once (analyzeStatus : string -> Z -> Result)
    (e : EnvStep) (w : World) :
  exists l,
    trace (exec (loop_body analyzeStatus e) w) = trace w ++ l
    /\ count is_wait l = 1%nat.
Proof.
  destruct (turn_exact analyzeStatus e w) as (Htr & _).
  eexists. split; [exact Htr|].
  destruct (reaches_read e w); [destruct (0 <=? dev_result e)|];
    repeat (rewrite ?count_app, ?count_cons, ?count_empty,
              ?count_external by reflexivity);
    cbn [is_wait app];
    repeat (rewrite ?count_app, ?count_cons, ?count_empty,
              ?count_external by reflexivity);
    cbn [is_wait]; reflexivity.
Qed.

Lemma loop_ends_at_first_stop_trace (analyzeStatus : string -> Z -> Result)
    (pre : list EnvStep) (e : EnvStep) (post : list EnvStep) :
  forall w,
  mStop w = false -> forallb no_stop pre = true -> In XStoreStop (ev_wait e) ->
  threadLoop analyzeStatus (pre ++ e :: post) w =
  threadLoop analyzeStatus (pre ++ [e]) w
  /\ eval (threadLoop analyzeStatus (pre ++ [e])) w = Some false
  /\ exists l,
       trace (exec (threadLoop analyzeStatus (pre ++ [e])) w) = trace w ++ l
       /\ count is_wait l = S (length pre).
Proof.
  induction pre as [|p pre IH]; intros w Hrun Hquiet Hstore.
  - cbn [app length].
    assert (Hstop : mStop (exec (loop_body analyzeStatus e) (exec load_stop w)) = true).
    { rewrite mStop_turn, existsb_app, (existsb_stop_In _ Hstore).
      now rewrite orb_true_r. }
    pose proof (turn_that_stores_stop_exits analyzeStatus e post w Hrun Hstop)
      as Hpost.
    pose proof (turn_that_stores_stop_exits analyzeStatus e [] w Hrun Hstop)
      as Hnil.
    split; [now rewrite Hpost, Hnil|].
    split; [unfold eval; now rewrite Hnil|].
    destruct (turn_waits_once analyzeStatus e (exec load_stop w)) as (l & Htr & Hc).
    exists ([EvLoadStop false] ++ l ++ [EvLoadStop true]).
    unfold exec at 1; rewrite Hnil; cbn [snd].
    unfold exec at 1; rewrite load_stop_spec; cbn [snd trace].
    rewrite Hstop, Htr.
    unfold exec at 1; rewrite load_stop_spec; cbn [snd trace].
    rewrite Hrun, <- !app_assoc. split; [reflexivity|].
    rewrite !count_app, Hc. reflexivity.
  - cbn [forallb] in Hquiet; apply andb_true_iff in Hquiet as (Hp & Hquiet).
    cbn [app length].
    set (w1 := exec (loop_body analyzeStatus p) (exec load_stop w)).
    assert (Hrun1 : mStop w1 = false).
    { unfold w1. rewrite (mStop_turn_no_stop _ _ _ Hp).
      unfold exec; rewrite load_stop_spec; exact Hrun. }
    destruct (IH w1 Hrun1 Hquiet Hstore) as (Hsame & Hev & l & Htr & Hc).
    unfold eval, exec at 1.
    rewrite !(threadLoop_cons _ _ _ _ Hrun). fold w1.
    split; [exact Hsame|]. split; [exact Hev|].
    destruct (turn_waits_once analyzeStatus p (exec load_stop w)) as (l1 & Htr1 & Hc1).
    fold w1 in Htr1.
    exists ([EvLoadStop false] ++ l1 ++ l).
    fold (exec (threadLoop analyzeStatus (pre ++ [e])) w1).
    rewrite Htr, Htr1.
    unfold exec at 1; rewrite load_stop_spec; cbn [snd trace].
    rewrite Hrun, <- !app_assoc. split; [reflexivity|].
    rewrite !count_app, Hc, Hc1. reflexivity.
Qed.

(** X7.  The loop ends at the first store of the stop flag.  If the steps
    before store no stop and the stop flag is stored during the wait of the
    next step, the loop performs exactly those turns and that one, one wait
    each, and returns false; what the script holds after that step is never
    run. *)
Theorem loop_ends_at_first_stop (analyzeStatus : string -> Z -> Result)
    (pre : list EnvStep) (e : EnvStep) (post : list EnvStep) (w : World) :
  mStop w = false -> forallb no_stop pre = true -> In XStoreStop (ev_wait e) ->
  let w' := exec (threadLoop analyzeStatus (pre ++ e :: post)) w in
  eval (threadLoop analyzeStatus (pre ++ e :: post)) w = Some false
  /\ w' = exec (threadLoop analyzeStatus (pre ++ [e])) w
  /\ count is_wait (new_events w w') = S (length pre)
  /\ mStop w' = true.
Proof.
  intros Hrun Hquiet Hstore; cbv zeta.
  destruct (loop_ends_at_first_stop_trace analyzeStatus pre e post w
              Hrun Hquiet Hstore) as (Hsame & Hev & l & Htr & Hc).
  assert (Hexec : exec (threadLoop analyzeStatus (pre ++ e :: post)) w =
                  exec (threadLoop analyzeStatus (pre ++ [e])) w)
    by (unfold exec; now rewrite Hsame).
  assert (Heval : eval (threadLoop analyzeStatus (pre ++ e :: post)) w =
                  eval (threadLoop analyzeStatus (pre ++ [e])) w)
    by (unfold eval; now rewrite Hsame).
  rewrite Hexec, Heval.
  split; [exact Hev|]. split; [reflexivity|].
  split; [now rewrite (new_events_app _ _ _ Htr)|].
  destruct (mStop (exec (threadLoop analyzeStatus (pre ++ [e])) w)) eqn:Hend;
    [reflexivity|].
  exfalso. revert Hev Hend. clear.
  generalize (pre ++ [e]). intros script; revert w.
  induction script as [|s script IH]; intros w Hev Hend.
  - unfold eval, exec in *. destruct (mStop w) eqn:Hw.
    + rewrite (threadLoop_stopped _ _ _ Hw) in Hend.
      unfold exec in Hend; rewrite load_stop_spec in Hend. cbn in Hend. congruence.
    + rewrite (threadLoop_nil _ _ Hw) in Hev. discriminate Hev.
  - unfold eval, exec in *. destruct (mStop w) eqn:Hw.
    + rewrite (threadLoop_stopped _ _ _ Hw) in Hend.
      unfold exec in Hend; rewrite load_stop_spec in Hend. cbn in Hend. congruence.
    + rewrite (threadLoop_cons _ _ _ _ Hw) in Hev, Hend.
      exact (IH _ Hev Hend).
Qed.

Lemma loop_ends_at_first_stop_witness :
  eval (threadLoop Sample.analyzeStatus
          ([Sample.three_bytes; Sample.device_error]
           ++ Sample.stop_then_timeout :: [Sample.three_bytes; Sample.three_bytes]))
       Sample.fresh = Some false
  /\ count is_wait
       (new_events Sample.fresh
          (exec (threadLoop Sample.analyzeStatus
                   ([Sample.three_bytes; Sample.device_error]
                    ++ Sample.stop_then_timeout
                    :: [Sample.three_bytes; Sample.three_bytes]))
                Sample.fresh)) = 3%nat.
Proof.
  destruct (loop_ends_at_first_stop Sample.analyzeStatus
              [Sample.three_bytes; Sample.device_error] Sample.stop_then_timeout
              [Sample.three_bytes; Sample.three_bytes] Sample.fresh
              eq_refl eq_refl (or_introl eq_refl))
    as (Hev & _ & Hc & _).
  split; [exact Hev | exact Hc].
Defined.

Lemma after_stop_skips (xs : list ExtEvent) (rest : list Event) :
  existsb ExtEvent_is_stop xs = false ->
  after_stop (map EvExternal xs ++ rest) = after_stop rest.
Proof.
  induction xs as [|x xs IH]; intros H; [reflexivity|].
  cbn [existsb] in H; apply orb_false_iff in H as (Hx & Hxs).
  destruct x; cbn in *; try discriminate; now apply IH.
Qed.

Lemma after_stop_external (xs : list ExtEvent) (rest : list Event) :
  In XStoreStop xs ->
  exists ys, after_stop (map EvExternal xs ++ rest) = map EvExternal ys ++ rest.
Proof.
  induction xs as [|x xs IH]; intros Hin; [destruct Hin|].
  destruct x; cbn;
    try (apply IH; destruct Hin as [Hx|Hin]; [discriminate Hx|exact Hin]).
  now exists xs.
Qed.

(** X8.  A store of the stop flag that arrives while the thread is on its way
    to the device read, or blocked in it, does not cancel the turn: the
    read in progress completes, its status record is written and the
    consumer is woken after the store, and only then does the thread leave
    the loop, without another wait. *)
Theorem stop_stored_during_read (analyzeStatus : string -> Z -> Result)
    (e : EnvStep) (post : list EnvStep) (w : World) :
  mStop w = false ->
  existsb ExtEvent_is_stop (ev_wait e) = false ->
  reaches_read e w = true ->
  In XStoreStop (ev_pre_read e ++ ev_in_read e) ->
  let t := new_events w (exec (threadLoop analyzeStatus (e :: post)) w) in
  eval (threadLoop analyzeStatus (e :: post)) w = Some false
  /\ count is_wait t = 1%nat
  /\ count is_wait (after_stop t) = 0%nat
  /\ count is_read (after_stop t) = 1%nat
  /\ count is_data_write (after_stop t) =
     (if 0 <=? dev_result e then 1%nat else 0%nat)
  /\ count is_status_write (after_stop t) = 1%nat
  /\ count is_wake (after_stop t) = 1%nat.
Proof.
  intros Hrun Hwait Hreach Hstore; cbv zeta.
  assert (Hreach' : reaches_read e (exec load_stop w) = true)
    by now rewrite reaches_read_load_stop.
  assert (Hstop : mStop (exec (loop_body analyzeStatus e) (exec load_stop w)) = true).
  { rewrite mStop_turn, Hreach', existsb_app, (existsb_stop_In _ Hstore).
    now rewrite !orb_true_r. }
  pose proof (turn_that_stores_stop_exits analyzeStatus e post w Hrun Hstop) as Hloop.
  unfold eval, exec at 1 2 3 4 5 6; rewrite Hloop; cbn [fst snd].
  split; [reflexivity|].
  destruct (turn_exact analyzeStatus e (exec load_stop w)) as (Htr & _).
  rewrite Hreach' in Htr.
  match type of Htr with _ = _ ++ ?l =>
    assert (Hall : new_events w
              (exec load_stop (exec (loop_body analyzeStatus e) (exec load_stop w)))
            = [EvLoadStop false] ++ l ++ [EvLoadStop true])
  end.
  { apply new_events_app.
    unfold exec at 1; rewrite load_stop_spec; cbn [snd trace].
    rewrite Hstop, Htr.
    unfold exec at 1; rewrite load_stop_spec; cbn [snd trace].
    rewrite Hrun, <- !app_assoc. reflexivity. }
  rewrite Hall.
  split.
  { destruct (0 <=? dev_result e);
      repeat (rewrite ?count_app, ?count_cons, ?count_empty,
                ?count_external by reflexivity);
      cbn [is_wait app];
      repeat (rewrite ?count_app, ?count_cons, ?count_empty,
                ?count_external by reflexivity);
      cbn [is_wait]; reflexivity. }
  cbn [app after_stop]. rewrite <- app_assoc, (after_stop_skips _ _ Hwait).
  cbn [app after_stop]. rewrite <- !app_assoc.
  destruct (after_stop_external (ev_pre_read e ++ ev_in_read e)
              (EvRead (availToWrite_seen e (exec load_stop w)) (dev_result e)
               :: ((if 0 <=? dev_result e
                    then [EvDataWrite
                            (firstn (Z.to_nat (dev_result e))
                               (mBuffer (after_read e (exec load_stop w))))
                            (dev_result e)
                            (dev_result e <=?
                             availableToWrite
                               (mDataMQ (after_read e (exec load_stop w))))]
                    else [])
                   ++ [EvStatusWrite
                         (if 0 <=? dev_result e
                          then mkReadStatus OK (dev_result e)
                          else mkReadStatus
                                 (analyzeStatus "read"%string (dev_result e)) 0)
                         (1 <=? availableToWrite
                                  (mStatusMQ (after_read e (exec load_stop w))));
                       EvWake NOT_EMPTY]) ++ [EvLoadStop true]) Hstore)
    as (ys & Hafter).
  cbn [app] in Hafter |- *. rewrite <- ?app_assoc in Hafter |- *.
  cbn [app] in Hafter |- *. rewrite Hafter.
  destruct (0 <=? dev_result e);
    repeat (rewrite ?count_app, ?count_cons, ?count_empty,
              ?count_external by reflexivity);
    cbn [is_read is_wait is_data_write is_status_write is_wake app];
    repeat (rewrite ?count_app, ?count_cons, ?count_empty,
              ?count_external by reflexivity);
    cbn [is_read is_wait is_data_write is_status_write is_wake];
    repeat split; reflexivity.
Qed.

Lemma stop_stored_during_read_witness :
  eval (threadLoop Sample.analyzeStatus [Sample.stop_in_read; Sample.three_bytes])
       Sample.fresh = Some false
  /\ count is_status_write
       (after_stop
          (new_events Sample.fresh
             (exec (threadLoop Sample.analyzeStatus
                      [Sample.stop_in_read; Sample.three_bytes]) Sample.fresh)))
     = 1%nat.
Proof.
  destruct (stop_stored_during_read Sample.analyzeStatus Sample.stop_in_read
              [Sample.three_bytes] Sample.fresh eq_refl eq_refl eq_refl
              (or_introl eq_refl))
    as (Hev & _ & _ & _ & _ & Hstatus & _).
  split; [exact Hev | exact Hstatus].
Defined.

(** ** A device that keeps its contract *)

(** X5.  The loop drops no data of a device that keeps its contract.  When
    the read returns n with 0 <= n <= the bytes requested and the device
    has put n bytes into the buffer, the data write succeeds, whatever the
    consumer does meanwhile: exactly the bytes of the device are appended to
    the data queue and no failure of the data write is logged. *)
Theorem contract_abiding_read_is_queued (analyzeStatus : string -> Z -> Result)
    (e : EnvStep) (w : World) (n : Z) :
  reaches_read e w = true -> buffer_fits w ->
  dev_result e = n -> 0 <= n -> n <= availToWrite_seen e w ->
  Z.of_nat (length (dev_data e)) = n ->
  let r := after_read e w in
  let w' := exec (loop_body analyzeStatus e) w in
  items (mDataMQ w') = items (mDataMQ r) ++ dev_data e
  /\ In (EvDataWrite (dev_data e) n true) (new_events w w')
  /\ ~ In (Warning, "data message queue write failed"%string) (new_logs w w').
Proof.
  intros Hreach Hfit Hres Hn Hreq Hlen; cbv zeta.
  assert (Hok : (n <=? availableToWrite (mDataMQ (after_read e w))) = true).
  { apply Z.leb_le. rewrite mDataMQ_after_read.
    rewrite availToWrite_seen_spec in Hreq.
    pose proof (ext_data_space (ev_pre_read e) (ext_data (ev_wait e) (mDataMQ w))).
    pose proof (ext_data_space (ev_in_read e)
                  (ext_data (ev_pre_read e) (ext_data (ev_wait e) (mDataMQ w)))).
    lia. }
  assert (Hbytes : firstn (Z.to_nat n) (mBuffer (after_read e w)) = dev_data e).
  { pose proof (availableToWrite_le (ext_data (ev_wait e) (mDataMQ w))) as Hle.
    rewrite ext_data_quantumCount, <- availToWrite_seen_spec in Hle.
    unfold buffer_fits in Hfit. rewrite mBuffer_after_read.
    replace (Z.to_nat n) with (length (dev_data e)) by lia.
    apply dev_fill_prefix; lia. }
  destruct (turn_exact analyzeStatus e w) as (Htr & Hlog).
  rewrite Hreach, Hres in Htr, Hlog. rewrite Hok, Hbytes in Htr.
  rewrite Hok in Hlog.
  apply Z.leb_le in Hn. rewrite Hn in Htr, Hlog. cbn [andb negb app] in Htr, Hlog.
  split; [|split].
  - rewrite (loop_body_read _ _ _ Hreach), finish_turn_spec, Hres; cbv zeta.
    cbn [mDataMQ]. rewrite Hn, mq_write_items, Hok, Hbytes. reflexivity.
  - rewrite (new_events_app _ _ _ Htr).
    apply in_or_app; right. right. right.
    apply in_or_app; right. right. left. reflexivity.
  - rewrite (new_logs_app _ _ _ Hlog).
    destruct (negb _); cbn; intuition discriminate.
Qed.

Lemma contract_abiding_read_is_queued_witness :
  items (mDataMQ
           (exec (loop_body Sample.analyzeStatus Sample.consumer_drains)
                 (exec (loop_body Sample.analyzeStatus Sample.three_bytes)
                       Sample.fresh))) =
  ["c"; "d"; "e"]%byte.
Proof.
  destruct (contract_abiding_read_is_queued Sample.analyzeStatus
              Sample.consumer_drains
              (exec (loop_body Sample.analyzeStatus Sample.three_bytes) Sample.fresh)
              2 eq_refl eq_refl eq_refl ltac:(lia) ltac:(vm_compute; discriminate)
              eq_refl)
    as (Hitems & _).
  exact Hitems.
Defined.

(** X3.  Whatever the device returns, the status records the loop writes are
    well formed: the byte count of a record is never negative, and it is
    other than zero only in a record whose result is OK. *)
Theorem status_records_are_sane (analyzeStatus : string -> Z -> Result)
    (script : list EnvStep) (w : World) :
  Forall sane_status
    (new_events w (exec (threadLoop analyzeStatus script) w)).
Proof.
  destruct (threadLoop_grows analyzeStatus (fun l _ => Forall sane_status l))
    with (script := script) (w := w) as (l & m & Htr & _ & HP).
  - intros b. repeat constructor.
  - intros e v. destruct (turn_exact analyzeStatus e v) as (Htr & Hlog).
    eexists; eexists. split; [exact Htr|]. split; [exact Hlog|].
    assert (Hext : forall xs, Forall sane_status (map EvExternal xs)).
    { intros xs; induction xs; constructor; [exact I|assumption]. }
    apply Forall_app; split; [apply Hext|].
    constructor; [exact I|].
    destruct (reaches_read e v); [|constructor].
    constructor; [exact I|].
    apply Forall_app; split; [apply Hext|].
    constructor; [exact I|].
    destruct (0 <=? dev_result e) eqn:Hn; cbn [app].
    + apply Z.leb_le in Hn.
      repeat constructor; cbn; auto.
    + repeat constructor; cbn; [lia|congruence].
  - intros l1 _ l2 _ H1 H2. apply Forall_app; auto.
  - now rewrite (new_events_app _ _ _ Htr).
Qed.
(** * Properties of the stream controller *)

Import StreamIn Session.

Lemma prepareForReading_twice (frameSize framesCount : Z)
    (prio : ThreadPriority) (env : SetupEnv) (s : State) :
  isSome (mDataMQ s) = true ->
  prepareForReading frameSize framesCount prio env s =
  ((INVALID_STATE, EmptyDescriptor, EmptyDescriptor),
   exec (ALOGE "the client attempts to call prepareForReading twice"%string) s).
Proof.
  intros H. unfold prepareForReading, bind, gets. rewrite H. reflexivity.
Qed.

(** The four ways [prepareForReading] goes on a stream without a session. *)
Lemma prepareForReading_cases (frameSize framesCount : Z)
    (prio : ThreadPriority) (env : SetupEnv) (s : State) :
  mDataMQ s = None ->
  let r := prepareForReading frameSize framesCount prio env s in
  let s' := snd r in
  (if setup_fails env
   then fst r = (INVALID_ARGUMENTS, EmptyDescriptor, EmptyDescriptor)
        /\ mDataMQ s' = None /\ mStatusMQ s' = mStatusMQ s
   else fst r = (OK, DescriptorOf (uint32_mul frameSize framesCount), DescriptorOf 1)
        /\ mDataMQ s' = Some (new_MQ (uint32_mul frameSize framesCount) true)
        /\ mStatusMQ s' = Some (new_MQ 1 true)
        /\ mEfGroup s' = create_flag env
        /\ mReadThread s' = Some (mkThread prio true))
  /\ mIsClosed s' = mIsClosed s
  /\ mStopReadThread s' = mStopReadThread s.
Proof.
  intros Hnone; cbv zeta.
  unfold prepareForReading, setup_fails, bind, gets. rewrite Hnone; cbn [isSome].
  destruct env as [dv sv cs cf rs]; cbn.
  destruct dv, sv; cbn; try (repeat split; assumption).
  destruct (cs =? status_OK) eqn:Hcs; cbn; [|repeat split; assumption].
  destruct cf as [flag|]; cbn; [|repeat split; assumption].
  destruct (rs =? status_OK) eqn:Hrs; cbn; repeat split; assumption.
Qed.

(** C7.  A call of prepareForReading on a stream without a session returns
    INVALID_ARGUMENTS together with two empty queue descriptors when the
    data queue or the status queue is not valid, and when the event flag
    cannot be created from the data queue's word (the creation reports an
    error, or leaves no event flag). *)
Theorem setup_failure_is_invalid_arguments (frameSize framesCount : Z)
    (prio : ThreadPriority) (env : SetupEnv) (s : State) :
  mDataMQ s = None ->
  data_valid env = false \/ status_valid env = false
  \/ create_status env <> status_OK \/ create_flag env = None ->
  eval (prepareForReading frameSize framesCount prio env) s =
  (INVALID_ARGUMENTS, EmptyDescriptor, EmptyDescriptor).
Proof.
  intros Hnone Hbad.
  destruct (prepareForReading_cases frameSize framesCount prio env s Hnone)
    as (Hcase & _).
  assert (Hfails : setup_fails env = true).
  { unfold setup_fails.
    destruct Hbad as [H|[H|[H|H]]].
    - now rewrite H.
    - rewrite H. now rewrite orb_true_r.
    - apply Z.eqb_neq in H. rewrite H; cbn. now rewrite !orb_true_r.
    - rewrite H; cbn. now rewrite !orb_true_r. }
  rewrite Hfails in Hcase. exact (proj1 Hcase).
Qed.

Lemma setup_failure_is_invalid_arguments_witness :
  eval (prepareForReading 2 8 URGENT_AUDIO Sample.setup_bad_data_queue) init =
  (INVALID_ARGUMENTS, EmptyDescriptor, EmptyDescriptor).
Proof.
  apply (setup_failure_is_invalid_arguments 2 8 URGENT_AUDIO
           Sample.setup_bad_data_queue init eq_refl (or_introl eq_refl)).
Defined.

(** C5.  On a stream whose session was set up by a successful call of
    prepareForReading, every later call of prepareForReading, whatever its
    arguments and whatever the collaborators would answer, returns
    INVALID_STATE with empty descriptors, calls no collaborator and changes
    no member: the queues, the event flag and the running capture thread of
    the session stay as they were. *)
Theorem second_setup_is_rejected (frameSize framesCount : Z)
    (prio : ThreadPriority) (env : SetupEnv) (s : State)
    (frameSize' framesCount' : Z) (prio' : ThreadPriority) (env' : SetupEnv) :
  setup_result frameSize framesCount prio env s = OK ->
  let s1 := exec (prepareForReading frameSize framesCount prio env) s in
  let s2 := exec (prepareForReading frameSize' framesCount' prio' env') s1 in
  established s1
  /\ eval (prepareForReading frameSize' framesCount' prio' env') s1 =
     (INVALID_STATE, EmptyDescriptor, EmptyDescriptor)
  /\ untouched s1 s2
  /\ established s2.
Proof.
  intros Hok; cbv zeta.
  assert (Hest : established
                   (exec (prepareForReading frameSize framesCount prio env) s)).
  { unfold setup_result, eval in Hok. unfold exec.
    destruct (mDataMQ s) as [q|] eqn:Hq.
    - rewrite prepareForReading_twice in Hok by now rewrite Hq.
      discriminate Hok.
    - destruct (prepareForReading_cases frameSize framesCount prio env s Hq)
        as (Hcase & _).
      destruct (setup_fails env) eqn:Hfails.
      + destruct Hcase as (Hres & _). rewrite Hres in Hok. discriminate Hok.
      + destruct Hcase as (_ & Hd & Hs & He & Ht).
        unfold established. rewrite Hd, Hs, He, Ht.
        unfold setup_fails in Hfails.
        rewrite !orb_false_iff, !negb_false_iff in Hfails.
        repeat split; try tauto. now exists prio. }
  set (s1 := exec (prepareForReading frameSize framesCount prio env) s) in *.
  pose proof (prepareForReading_twice frameSize' framesCount' prio' env' s1
                (proj1 Hest)) as Htwice.
  unfold eval, exec at 1 2. rewrite Htwice; cbn [fst snd].
  split; [exact Hest|]. split; [reflexivity|].
  split; [repeat split|exact Hest].
Qed.

Lemma second_setup_is_rejected_witness :
  eval (prepareForReading 4 4 NORMAL Sample.setup_ok) Sample.in_session =
  (INVALID_STATE, EmptyDescriptor, EmptyDescriptor).
Proof.
  destruct (second_setup_is_rejected 2 8 URGENT_AUDIO Sample.setup_ok init
              4 4 NORMAL Sample.setup_ok eq_refl)
    as (_ & Hres & _).
  exact Hres.
Defined.

Lemma step_keeps_queues_paired (s : State) (op : Op) :
  queues_paired s -> queues_paired (step s op).
Proof.
  unfold queues_paired; intros Hinv.
  destruct op as [frameSize framesCount prio env|env]; cbn [step].
  - unfold exec. destruct (mDataMQ s) as [q|] eqn:Hq.
    + rewrite prepareForReading_twice by now rewrite Hq.
      cbn. now rewrite Hq in *.
    + destruct (prepareForReading_cases frameSize framesCount prio env s Hq)
        as (Hcase & _).
      destruct (setup_fails env).
      * destruct Hcase as (_ & Hd & Hs). rewrite Hd, Hs, Hinv. reflexivity.
      * destruct Hcase as (_ & Hd & Hs & _). now rewrite Hd, Hs.
  - unfold exec, close, bind, gets.
    destruct (mIsClosed s); [exact Hinv|].
    cbn. destruct (mReadThread s), (mEfGroup s); cbn;
      repeat (match goal with |- context [negb (?a =? ?b)] =>
                destruct (negb (a =? b)) end; cbn); exact Hinv.
Qed.

Lemma run_ops_invariant (P : State -> Prop) :
  (forall s op, P s -> P (step s op)) ->
  forall ops s, P s -> P (run_ops ops s).
Proof.
  intros Hstep ops; induction ops as [|op ops IH]; intros s Hs; cbn.
  - exact Hs.
  - apply IH. now apply Hstep.
Qed.

Lemma reachable_queues_paired (s : State) :
  reachable s -> queues_paired s.
Proof.
  intros (ops & ->).
  apply (run_ops_invariant queues_paired step_keeps_queues_paired).
  reflexivity.
Qed.

(** C10.  When a call of prepareForReading fails in one of its three failure
    branches (a queue that is not valid, the creation of the event flag, the
    launch of the thread), which is when it returns INVALID_ARGUMENTS, the
    data-queue and status-queue members of the stream are unset after the
    call, and a later call of prepareForReading is not rejected with
    INVALID_STATE, whatever its arguments and the answers it gets. *)
Theorem failed_setup_leaves_no_session (frameSize framesCount : Z)
    (prio : ThreadPriority) (env : SetupEnv) (s : State)
    (frameSize' framesCount' : Z) (prio' : ThreadPriority) (env' : SetupEnv) :
  reachable s ->
  setup_result frameSize framesCount prio env s = INVALID_ARGUMENTS ->
  let s1 := exec (prepareForReading frameSize framesCount prio env) s in
  setup_fails env = true
  /\ mDataMQ s1 = None
  /\ mStatusMQ s1 = None
  /\ setup_result frameSize' framesCount' prio' env' s1 <> INVALID_STATE
  /\ (setup_fails env' = false ->
      setup_result frameSize' framesCount' prio' env' s1 = OK).
Proof.
  intros Hreach Hres; cbv zeta.
  pose proof (reachable_queues_paired s Hreach) as Hpair.
  unfold setup_result, eval in Hres.
  destruct (mDataMQ s) as [q|] eqn:Hq.
  { rewrite prepareForReading_twice in Hres by now rewrite Hq.
    discriminate Hres. }
  destruct (prepareForReading_cases frameSize framesCount prio env s Hq)
    as (Hcase & _).
  destruct (setup_fails env) eqn:Hfails.
  2:{ destruct Hcase as (Hok & _). rewrite Hok in Hres. discriminate Hres. }
  destruct Hcase as (_ & Hd & Hs).
  unfold queues_paired in Hpair; rewrite Hq in Hpair.
  assert (Hs1 : mStatusMQ (exec (prepareForReading frameSize framesCount prio env) s)
                = None).
  { unfold exec; rewrite Hs. destruct (mStatusMQ s); [discriminate Hpair|reflexivity]. }
  fold (exec (prepareForReading frameSize framesCount prio env) s) in Hd.
  split; [reflexivity|]. split; [exact Hd|]. split; [exact Hs1|].
  destruct (prepareForReading_cases frameSize' framesCount' prio' env' _ Hd)
    as (Hcase' & _).
  unfold setup_result, eval.
  destruct (setup_fails env'); split.
  - destruct Hcase' as (Hr & _). rewrite Hr. discriminate.
  - discriminate.
  - destruct Hcase' as (Hr & _). rewrite Hr. discriminate.
  - intros _. destruct Hcase' as (Hr & _). now rewrite Hr.
Qed.

Lemma failed_setup_leaves_no_session_witness :
  mDataMQ (exec (prepareForReading 2 8 URGENT_AUDIO Sample.setup_no_thread) init)
  = None
  /\ setup_result 2 8 URGENT_AUDIO Sample.setup_ok
       (exec (prepareForReading 2 8 URGENT_AUDIO Sample.setup_no_thread) init) = OK.
Proof.
  destruct (failed_setup_leaves_no_session 2 8 URGENT_AUDIO Sample.setup_no_thread
              init 2 8 URGENT_AUDIO Sample.setup_ok
              (ex_intro _ [] eq_refl) eq_refl)
    as (_ & Hd & _ & _ & Hok).
  split; [exact Hd | exact (Hok eq_refl)].
Defined.

Lemma close_closed (env : CloseEnv) (s : State) :
  mIsClosed s = true -> close env s = (INVALID_STATE, s).
Proof. intros H; unfold close, bind, gets; now rewrite H. Qed.

Lemma close_open (env : CloseEnv) (s : State) :
  mIsClosed s = false ->
  let s1 := exec (close env) s in
  eval (close env) s = OK
  /\ calls s1 =
     calls s
     ++ (if isSome (mReadThread s)
         then [CallStoreStop; CallRequestExitAndWait] else [])
     ++ (if isSome (mEfGroup s) then [CallDeleteEventFlag] else [])
     ++ [CallCloseInputStream]
  /\ mStopReadThread s1 = mStopReadThread s || isSome (mReadThread s)
  /\ mReadThread s1 =
     match mReadThread s with
     | Some t => Some (mkThread (mThreadPriority t) false)
     | None => None
     end
  /\ mEfGroup s1 = None
  /\ mIsClosed s1 = true
  /\ mDataMQ s1 = mDataMQ s
  /\ mStatusMQ s1 = mStatusMQ s.
Proof.
  intros Hopen; cbv zeta.
  unfold eval, exec, close, bind, gets. rewrite Hopen.
  destruct s as [closed ef stop dq sq thr cs lg]; cbn in *.
  destruct thr as [t|], ef as [flag|]; cbn;
    repeat (match goal with |- context [negb (?a =? ?b)] =>
              destruct (negb (a =? b)) end; cbn);
    rewrite <- ?app_assoc, ?orb_true_r, ?orb_false_r; cbn;
    repeat split; reflexivity.
Qed.

Lemma step_keeps_closed (s : State) (op : Op) :
  mIsClosed s = true -> mIsClosed (step s op) = true.
Proof.
  intros Hclosed.
  destruct op as [frameSize framesCount prio env|env]; cbn [step]; unfold exec.
  - destruct (mDataMQ s) as [q|] eqn:Hq.
    + rewrite prepareForReading_twice by now rewrite Hq. exact Hclosed.
    + destruct (prepareForReading_cases frameSize framesCount prio env s Hq)
        as (_ & Hc & _).
      now rewrite Hc.
  - now rewrite close_closed.
Qed.

(** C6 (as amended).  The first call of close on a stream returns OK after
    it has stored the stop flag and joined the capture thread if the stream
    has a thread object, deleted the event flag if the stream has one, and
    closed the device input stream, in that order; on a stream that has
    neither, it only closes the device input stream.  Every later call of
    close on the same stream, whatever was called in between, returns
    INVALID_STATE, calls no collaborator and changes nothing. *)
Theorem close_once (env : CloseEnv) (s : State) :
  mIsClosed s = false ->
  let s1 := exec (close env) s in
  eval (close env) s = OK
  /\ calls s1 =
     calls s
     ++ (if isSome (mReadThread s)
         then [CallStoreStop; CallRequestExitAndWait] else [])
     ++ (if isSome (mEfGroup s) then [CallDeleteEventFlag] else [])
     ++ [CallCloseInputStream]
  /\ mStopReadThread s1 = mStopReadThread s || isSome (mReadThread s)
  /\ mReadThread s1 =
     match mReadThread s with
     | Some t => Some (mkThread (mThreadPriority t) false)
     | None => None
     end
  /\ mEfGroup s1 = None
  /\ (forall ops env',
        close env' (run_ops ops s1) = (INVALID_STATE, run_ops ops s1)).
Proof.
  intros Hopen; cbv zeta.
  destruct (close_open env s Hopen) as (Hres & Hcalls & Hstop & Hthr & Hef & Hclosed & _).
  repeat (split; [assumption|]).
  intros ops env'. apply close_closed.
  now apply (run_ops_invariant (fun s => mIsClosed s = true) step_keeps_closed).
Qed.

Lemma close_once_witness :
  eval (close Sample.close_ok) Sample.in_session = OK
  /\ calls (exec (close Sample.close_ok) Sample.in_session) =
     calls Sample.in_session
     ++ [CallStoreStop; CallRequestExitAndWait; CallDeleteEventFlag;
         CallCloseInputStream]
  /\ eval (close Sample.close_ok)
          (exec (close Sample.close_ok) Sample.in_session) = INVALID_STATE.
Proof.
  destruct (close_once Sample.close_ok Sample.in_session eq_refl)
    as (Hres & Hcalls & _ & _ & _ & Hlater).
  split; [exact Hres|]. split; [exact Hcalls|].
  exact (f_equal fst (Hlater [] Sample.close_ok)).
Defined.

(** C6 (as stated) fails on a stream that never had a session: the first
    close returns OK having closed the device input stream only; it stores
    no stop flag, joins no thread and deletes no event flag. *)
Lemma close_without_session :
  ~ Stated.first_close Sample.close_ok init.
Proof.
  intros H. destruct (H eq_refl) as (_ & Hcalls).
  cbv in Hcalls. discriminate Hcalls.
Qed.

(** The capture thread of a new session starts on two empty queues, with a
    buffer as large as the data queue. *)
Lemma new_session_world (frameSize framesCount : Z)
    (prio : ThreadPriority) (env : SetupEnv) (s : State) :
  setup_result frameSize framesCount prio env s = OK ->
  exists w,
    thread_world (exec (prepareForReading frameSize framesCount prio env) s) = Some w
    /\ ReadThread.buffer_fits w
    /\ items (ReadThread.mDataMQ w) = []
    /\ items (ReadThread.mStatusMQ w) = []
    /\ quantumCount (ReadThread.mDataMQ w) = uint32_mul frameSize framesCount
    /\ quantumCount (ReadThread.mStatusMQ w) = 1.
Proof.
  intros Hok. unfold setup_result, eval in Hok. unfold exec.
  destruct (mDataMQ s) as [q|] eqn:Hq.
  { rewrite prepareForReading_twice in Hok by now rewrite Hq. discriminate Hok. }
  destruct (prepareForReading_cases frameSize framesCount prio env s Hq)
    as (Hcase & _ & Hstop).
  destruct (setup_fails env) eqn:Hfails.
  { destruct Hcase as (Hres & _). rewrite Hres in Hok. discriminate Hok. }
  destruct Hcase as (_ & Hd & Hs & He & _).
  unfold setup_fails in Hfails.
  rewrite !orb_false_iff, !negb_false_iff in Hfails.
  destruct Hfails as ((((_ & _) & _) & Hflag) & _).
  unfold thread_world. rewrite Hd, Hs, He.
  destruct (create_flag env) as [flag|]; [|discriminate Hflag].
  eexists; split; [reflexivity|].
  unfold ReadThread.buffer_fits, ReadThread.construct, new_MQ; cbn.
  rewrite repeat_length.
  assert (0 <= uint32_mul frameSize framesCount)
    by (unfold uint32_mul; apply Z.mod_pos_bound; lia).
  repeat split; lia.
Qed.

(** ** Session setup, branch by branch *)

(** X9.  The result of prepareForReading is decided by three tests in this
    order: INVALID_STATE when the stream has a session, else
    INVALID_ARGUMENTS when a queue is not valid, the event flag is not
    created or the thread does not start, else OK.  Only OK comes with
    descriptors; the data queue then has frameSize * framesCount elements
    modulo 2^32, which is the product when it fits 32 bits, and the status
    queue has one. *)
Theorem setup_result_table (frameSize framesCount : Z)
    (prio : ThreadPriority) (env : SetupEnv) (s : State) :
  eval (prepareForReading frameSize framesCount prio env) s =
    (if isSome (mDataMQ s)
     then (INVALID_STATE, EmptyDescriptor, EmptyDescriptor)
     else if setup_fails env
          then (INVALID_ARGUMENTS, EmptyDescriptor, EmptyDescriptor)
          else (OK, DescriptorOf (uint32_mul frameSize framesCount), DescriptorOf 1))
  /\ 0 <= uint32_mul frameSize framesCount < 2 ^ 32
  /\ (0 <= frameSize * framesCount < 2 ^ 32 ->
      uint32_mul frameSize framesCount = frameSize * framesCount).
Proof.
  split; [|split].
  - unfold eval. destruct (mDataMQ s) as [q|] eqn:Hq; cbn [isSome].
    + rewrite prepareForReading_twice by now rewrite Hq. reflexivity.
    + destruct (prepareForReading_cases frameSize framesCount prio env s Hq)
        as (Hcase & _).
      destruct (setup_fails env); exact (proj1 Hcase).
  - unfold uint32_mul. apply Z.mod_pos_bound. lia.
  - intros H. unfold uint32_mul. now apply Z.mod_small.
Qed.

Lemma setup_result_table_witness :
  eval (prepareForReading 65536 65537 NORMAL Sample.setup_ok) init =
  (OK, DescriptorOf 65536, DescriptorOf 1)
  /\ uint32_mul 3 5 = 15.
Proof.
  destruct (setup_result_table 65536 65537 NORMAL Sample.setup_ok init)
    as (Hres & _).
  destruct (setup_result_table 3 5 NORMAL Sample.setup_ok init)
    as (_ & _ & Hsmall).
  split; [exact Hres | exact (Hsmall ltac:(lia))].
Defined.

Lemma prepareForReading_effects (frameSize framesCount : Z)
    (prio : ThreadPriority) (env : SetupEnv) (s : State) :
  mDataMQ s = None ->
  let s' := exec (prepareForReading frameSize framesCount prio env) s in
  calls s' =
    calls s
    ++ [CallNewDataMQ (uint32_mul frameSize framesCount); CallNewStatusMQ 1]
    ++ (if queues_valid env
        then CallCreateEventFlag
             :: (if flag_created env then [CallNewReadThread prio; CallRun] else [])
        else [])
  /\ mEfGroup s' = (if queues_valid env then create_flag env else mEfGroup s)
  /\ mReadThread s' =
     (if queues_valid env && flag_created env
      then Some (mkThread prio (run_status env =? status_OK))
      else mReadThread s).
Proof.
  intros Hnone; cbv zeta.
  unfold exec, prepareForReading, queues_valid, flag_created, bind, gets.
  rewrite Hnone; cbn [isSome].
  destruct env as [dv sv cs cf rs]; cbn.
  destruct dv, sv; cbn; rewrite <- ?app_assoc; try (repeat split; reflexivity).
  destruct (cs =? status_OK); cbn; rewrite <- ?app_assoc;
    [|repeat split; reflexivity].
  destruct cf as [flag|]; cbn; rewrite <- ?app_assoc;
    [|repeat split; reflexivity].
  destruct (rs =? status_OK); cbn; rewrite <- ?app_assoc; repeat split; reflexivity.
Qed.

(** X10.  A call of prepareForReading that fails undoes nothing of what it has
    done.  On a stream without a session it always constructs both queues;
    it creates the event flag once the queues are valid, replacing the
    event-flag member without deleting an earlier one; it creates and runs
    the thread once the event flag is there, and the thread object stays in
    the stream when the thread does not start.  It never touches the closed
    mark or the stop flag, and makes none of the calls of close. *)
Theorem failed_setup_is_not_undone (frameSize framesCount : Z)
    (prio : ThreadPriority) (env : SetupEnv) (s : State) :
  mDataMQ s = None ->
  let s' := exec (prepareForReading frameSize framesCount prio env) s in
  calls s' =
    calls s
    ++ [CallNewDataMQ (uint32_mul frameSize framesCount); CallNewStatusMQ 1]
    ++ (if queues_valid env
        then CallCreateEventFlag
             :: (if flag_created env then [CallNewReadThread prio; CallRun] else [])
        else [])
  /\ mEfGroup s' = (if queues_valid env then create_flag env else mEfGroup s)
  /\ mReadThread s' =
     (if queues_valid env && flag_created env
      then Some (mkThread prio (run_status env =? status_OK))
      else mReadThread s)
  /\ mIsClosed s' = mIsClosed s
  /\ mStopReadThread s' = mStopReadThread s
  /\ times is_teardown s' = times is_teardown s.
Proof.
  intros Hnone; cbv zeta.
  destruct (prepareForReading_effects frameSize framesCount prio env s Hnone)
    as (Hcalls & Hef & Hthr).
  destruct (prepareForReading_cases frameSize framesCount prio env s Hnone)
    as (_ & Hclosed & Hstop).
  repeat (split; [assumption|]).
  unfold times. unfold exec in Hcalls |- *. rewrite Hcalls, !filter_app.
  destruct (queues_valid env), (flag_created env); cbn; now rewrite app_nil_r.
Qed.

Lemma failed_setup_is_not_undone_witness :
  mReadThread
    (exec (prepareForReading 2 8 URGENT_AUDIO Sample.setup_no_thread) init) =
  Some (mkThread URGENT_AUDIO false)
  /\ mEfGroup
       (exec (prepareForReading 2 8 URGENT_AUDIO Sample.setup_no_thread) init) =
     Some 0.
Proof.
  destruct (failed_setup_is_not_undone 2 8 URGENT_AUDIO Sample.setup_no_thread
              init eq_refl)
    as (_ & Hef & Hthr & _).
  split; [exact Hthr | exact Hef].
Defined.

(** ** What holds in every state a stream can reach *)

Lemma prepareForReading_times (p : Call -> bool) (frameSize framesCount : Z)
    (prio : ThreadPriority) (env : SetupEnv) (s : State) :
  (forall c, is_teardown c = false -> p c = false) ->
  times p (exec (prepareForReading frameSize framesCount prio env) s) = times p s.
Proof.
  intros Hp. unfold times. destruct (mDataMQ s) as [q|] eqn:Hq.
  - unfold exec. rewrite prepareForReading_twice by now rewrite Hq. reflexivity.
  - destruct (prepareForReading_effects frameSize framesCount prio env s Hq)
      as (Hcalls & _).
    rewrite Hcalls, !filter_app.
    destruct (queues_valid env), (flag_created env); cbn;
      rewrite ?Hp by reflexivity; cbn; now rewrite app_nil_r.
Qed.

Lemma prepareForReading_mIsClosed (frameSize framesCount : Z)
    (prio : ThreadPriority) (env : SetupEnv) (s : State) :
  mIsClosed (exec (prepareForReading frameSize framesCount prio env) s) =
  mIsClosed s.
Proof.
  destruct (mDataMQ s) as [q|] eqn:Hq.
  - unfold exec. rewrite prepareForReading_twice by now rewrite Hq. reflexivity.
  - now destruct (prepareForReading_cases frameSize framesCount prio env s Hq)
      as (_ & Hclosed & _).
Qed.

Lemma times_zero (p : Call -> bool) (s : State) :
  (forall c, p c = true -> is_teardown c = true) ->
  times is_teardown s = 0%nat -> times p s = 0%nat.
Proof.
  intros Hp. unfold times. induction (calls s) as [|c cs IH]; [reflexivity|].
  cbn. destruct (is_teardown c) eqn:Hc; [discriminate|].
  destruct (p c) eqn:Hpc; [apply Hp in Hpc; congruence|]. exact IH.
Qed.

Lemma close_times (p : Call -> bool) (env : CloseEnv) (s : State) :
  mIsClosed s = false ->
  times p (exec (close env) s) =
  (times p s
   + (if isSome (mReadThread s)
      then length (filter p [CallStoreStop; CallRequestExitAndWait]) else 0)
   + (if isSome (mEfGroup s) then length (filter p [CallDeleteEventFlag]) else 0)
   + length (filter p [CallCloseInputStream]))%nat.
Proof.
  intros Hopen. destruct (close_open env s Hopen) as (_ & Hcalls & _).
  unfold times. rewrite Hcalls, !filter_app, !length_app.
  destruct (isSome (mReadThread s)), (isSome (mEfGroup s)); cbn [length filter]; lia.
Qed.

Lemma step_keeps_torn_down_once (s : State) (op : Op) :
  torn_down_once s -> torn_down_once (step s op).
Proof.
  unfold torn_down_once.
  destruct op as [frameSize framesCount prio env|env]; cbn [step].
  - rewrite prepareForReading_mIsClosed.
    rewrite !prepareForReading_times; [auto| | | | |]; intros c; destruct c;
      cbn; congruence.
  - intros H. destruct (mIsClosed s) eqn:Hclosed.
    + unfold exec. rewrite (close_closed _ _ Hclosed); cbn [snd].
      now rewrite Hclosed.
    + destruct (close_open env s Hclosed) as (_ & _ & _ & _ & _ & Hc & _).
      rewrite Hc, !(close_times _ env s Hclosed).
      rewrite (times_zero is_close_device s), (times_zero is_store_stop s),
        (times_zero is_join s), (times_zero is_delete_flag s);
        try exact H; try (intros c; destruct c; cbn; congruence).
      destruct (isSome (mReadThread s)), (isSome (mEfGroup s)); cbn; lia.
Qed.

(** X12.  The stream is torn down at most once.  In every state a stream can
    reach, the device input stream has been closed exactly once if the
    stream is closed and never otherwise; the stop flag has been stored,
    the thread joined and the event flag deleted at most once each, and
    not at all while the stream is open.  Destroying the stream, which
    calls close, leaves the device input stream closed exactly once. *)
Theorem teardown_happens_once (s : State) (env : CloseEnv) :
  reachable s ->
  torn_down_once s
  /\ times is_close_device (exec (destroy env) s) = 1%nat.
Proof.
  intros (ops & ->).
  assert (H : torn_down_once (run_ops ops init)).
  { apply (run_ops_invariant torn_down_once step_keeps_torn_down_once).
    reflexivity. }
  split; [exact H|].
  pose proof (step_keeps_torn_down_once _ (OpClose env) H) as Hc.
  cbn [step] in Hc. unfold torn_down_once in Hc.
  assert (Hsame : exec (destroy env) (run_ops ops init) =
                  exec (close env) (run_ops ops init)).
  { unfold destroy, exec, bind. now destruct (close env _). }
  rewrite Hsame.
  destruct (mIsClosed (run_ops ops init)) eqn:Hclosed.
  - unfold exec in *. rewrite (close_closed _ _ Hclosed) in *; cbn [snd] in *.
    rewrite Hclosed in Hc. tauto.
  - destruct (close_open env _ Hclosed) as (_ & _ & _ & _ & _ & Hc1 & _).
    rewrite Hc1 in Hc. tauto.
Qed.

Lemma teardown_happens_once_witness :
  times is_close_device
    (exec (destroy Sample.close_ok)
          (run_ops [OpPrepareForReading 2 8 URGENT_AUDIO Sample.setup_ok;
                    OpClose Sample.close_ok; OpClose Sample.close_ok]
                   init)) = 1%nat.
Proof.
  exact (proj2 (teardown_happens_once
                  (run_ops [OpPrepareForReading 2 8 URGENT_AUDIO Sample.setup_ok;
                            OpClose Sample.close_ok; OpClose Sample.close_ok]
                           init)
                  Sample.close_ok
                  (ex_intro _
                     [OpPrepareForReading 2 8 URGENT_AUDIO Sample.setup_ok;
                      OpClose Sample.close_ok; OpClose Sample.close_ok]
                     eq_refl))).
Defined.

Lemma step_keeps_coherent (s : State) (op : Op) :
  coherent s -> coherent (step s op).
Proof.
  intros (Hopen & Hsession).
  destruct op as [frameSize framesCount prio env|env]; cbn [step].
  - destruct (mDataMQ s) as [q|] eqn:Hq.
    + unfold exec. rewrite prepareForReading_twice by now rewrite Hq.
      unfold coherent, established in *; cbn. rewrite Hq in *. auto.
    + destruct (prepareForReading_cases frameSize framesCount prio env s Hq)
        as (Hcase & Hclosed & Hstop).
      unfold exec, coherent.
      rewrite Hclosed, Hstop.
      destruct (setup_fails env) eqn:Hfails.
      * destruct Hcase as (_ & Hd & _). rewrite Hd; cbn [isSome].
        split; [|discriminate].
        intros Ho. split; [exact (proj1 (Hopen Ho))|discriminate].
      * destruct Hcase as (_ & Hd & Hs & He & Ht).
        unfold established. rewrite Hd, Hs, He, Ht; cbn [isSome].
        unfold setup_fails in Hfails.
        rewrite !orb_false_iff, !negb_false_iff in Hfails.
        split; [|auto].
        intros Ho. split; [exact (proj1 (Hopen Ho))|].
        intros _. repeat split; try tauto. now exists prio.
  - destruct (mIsClosed s) eqn:Hclosed.
    + unfold exec. rewrite (close_closed _ _ Hclosed); cbn [snd].
      unfold coherent. rewrite Hclosed. split; [discriminate|exact Hsession].
    + destruct (close_open env s Hclosed)
        as (_ & _ & _ & Hthr & _ & Hc & Hd & Hs).
      unfold coherent. rewrite Hc, Hd, Hs, Hthr.
      split; [discriminate|].
      intros Hq. destruct (Hsession Hq) as (Hsq & Ht).
      split; [exact Hsq|]. now destruct (mReadThread s).
Qed.

(** X11.  In every state a stream can reach, an open stream has its stop flag
    clear, and a session on an open stream is complete: both queues, the
    event flag and a running capture thread are there.  Open or closed, a
    stream whose data queue is set also has its status queue and its
    thread object. *)
Theorem reachable_streams_are_coherent (s : State) :
  reachable s ->
  (mIsClosed s = false ->
   mStopReadThread s = false
   /\ (isSome (mDataMQ s) = true -> established s))
  /\ (isSome (mDataMQ s) = true ->
      isSome (mStatusMQ s) = true /\ isSome (mReadThread s) = true).
Proof.
  intros (ops & ->).
  apply (run_ops_invariant coherent step_keeps_coherent).
  split; [|discriminate]. intros _. split; [reflexivity|discriminate].
Qed.

Lemma reachable_streams_are_coherent_witness :
  established
    (run_ops [OpPrepareForReading 2 8 URGENT_AUDIO Sample.setup_no_thread;
              OpPrepareForReading 2 8 URGENT_AUDIO Sample.setup_ok;
              OpPrepareForReading 4 4 NORMAL Sample.setup_bad_data_queue]
             init).
Proof.
  destruct (reachable_streams_are_coherent
              (run_ops [OpPrepareForReading 2 8 URGENT_AUDIO Sample.setup_no_thread;
                        OpPrepareForReading 2 8 URGENT_AUDIO Sample.setup_ok;
                        OpPrepareForReading 4 4 NORMAL Sample.setup_bad_data_queue]
                       init)
              (ex_intro _ _ eq_refl))
    as (Hopen & _).
  exact (proj2 (Hopen eq_refl) eq_refl).
Defined.

(** ** Setup on a stream that was closed *)

Lemma untouched_refl (s : State) : untouched s s.
Proof. repeat split. Qed.

Lemma untouched_trans (s1 s2 s3 : State) :
  untouched s1 s2 -> untouched s2 s3 -> untouched s1 s3.
Proof.
  unfold untouched. intros H12 H23.
  decompose [and] H12; decompose [and] H23. repeat split; congruence.
Qed.

Lemma closed_session_step (s : State) (op : Op) :
  mIsClosed s = true -> isSome (mDataMQ s) = true -> untouched s (step s op).
Proof.
  intros Hclosed Hq. destruct op as [frameSize framesCount prio env|env]; cbn [step].
  - unfold exec. rewrite (prepareForReading_twice _ _ _ _ _ Hq). repeat split.
  - unfold exec. rewrite (close_closed _ _ Hclosed). apply untouched_refl.
Qed.

Lemma closed_session_run (ops : list Op) :
  forall s, mIsClosed s = true -> isSome (mDataMQ s) = true ->
  untouched s (run_ops ops s).
Proof.
  induction ops as [|op ops IH]; intros s Hclosed Hq; [apply untouched_refl|].
  cbn. pose proof (closed_session_step s op Hclosed Hq) as Hstep.
  apply (untouched_trans _ _ _ Hstep). apply IH.
  - destruct Hstep as (Hc & _). now rewrite Hc.
  - destruct Hstep as (_ & _ & _ & Hd & _). now rewrite Hd.
Qed.

(** X13.  The call prepareForReading does not look at the closed mark.  On a closed
    stream without a session it succeeds as on an open one and starts the
    capture thread; from then on no call changes the stream: every close
    returns INVALID_STATE, so nothing stores the stop flag, joins that
    thread or deletes its event flag. *)
Theorem setup_after_close_is_never_torn_down (frameSize framesCount : Z)
    (prio : ThreadPriority) (env : SetupEnv) (s : State)
    (ops : list Op) (env' : CloseEnv) :
  mIsClosed s = true ->
  setup_result frameSize framesCount prio env s = OK ->
  let s1 := exec (prepareForReading frameSize framesCount prio env) s in
  mReadThread s1 = Some (mkThread prio true)
  /\ untouched s1 (run_ops ops s1)
  /\ mReadThread (run_ops ops s1) = Some (mkThread prio true)
  /\ close env' (run_ops ops s1) = (INVALID_STATE, run_ops ops s1).
Proof.
  intros Hclosed Hok; cbv zeta.
  set (s1 := exec (prepareForReading frameSize framesCount prio env) s).
  assert (H1 : mReadThread s1 = Some (mkThread prio true)
               /\ mIsClosed s1 = true /\ isSome (mDataMQ s1) = true).
  { unfold s1, setup_result, eval, exec in *.
    destruct (mDataMQ s) as [q|] eqn:Hq.
    - rewrite prepareForReading_twice in Hok by now rewrite Hq. discriminate Hok.
    - destruct (prepareForReading_cases frameSize framesCount prio env s Hq)
        as (Hcase & Hc & _).
      destruct (setup_fails env).
      + destruct Hcase as (Hres & _). rewrite Hres in Hok. discriminate Hok.
      + destruct Hcase as (_ & Hd & _ & _ & Ht).
        rewrite Ht, Hc, Hd. auto. }
  destruct H1 as (Hthr & Hc1 & Hq1).
  pose proof (closed_session_run ops s1 Hc1 Hq1) as Hrun.
  split; [exact Hthr|]. split; [exact Hrun|].
  destruct Hrun as (Hc & _ & _ & _ & _ & Ht & _).
  split; [now rewrite Ht|].
  apply close_closed. now rewrite Hc.
Qed.

Lemma setup_after_close_is_never_torn_down_witness :
  mReadThread
    (run_ops [OpClose Sample.close_ok]
       (exec (prepareForReading 2 8 URGENT_AUDIO Sample.setup_ok)
             (exec (close Sample.close_ok) init))) =
  Some (mkThread URGENT_AUDIO true)
  /\ close Sample.close_ok
       (run_ops [OpClose Sample.close_ok]
          (exec (prepareForReading 2 8 URGENT_AUDIO Sample.setup_ok)
                (exec (close Sample.close_ok) init))) =
     (INVALID_STATE,
      run_ops [OpClose Sample.close_ok]
        (exec (prepareForReading 2 8 URGENT_AUDIO Sample.setup_ok)
              (exec (close Sample.close_ok) init))).
Proof.
  destruct (setup_after_close_is_never_torn_down 2 8 URGENT_AUDIO Sample.setup_ok
              (exec (close Sample.close_ok) init)
              [OpClose Sample.close_ok] Sample.close_ok eq_refl eq_refl)
    as (_ & _ & Hthr & Hclose).
  split; [exact Hthr | exact Hclose].
Defined.

(** ** The stop flag across sessions *)

Lemma step_keeps_stop (s : State) (op : Op) :
  mStopReadThread s = true -> mStopReadThread (step s op) = true.
Proof.
  intros Hstop. destruct op as [frameSize framesCount prio env|env]; cbn [step].
  - destruct (mDataMQ s) as [q|] eqn:Hq.
    + unfold exec. rewrite prepareForReading_twice by now rewrite Hq. exact Hstop.
    + destruct (prepareForReading_cases frameSize framesCount prio env s Hq)
        as (_ & _ & Hs).
      unfold exec. now rewrite Hs.
  - destruct (mIsClosed s) eqn:Hclosed.
    + unfold exec. now rewrite (close_closed _ _ Hclosed).
    + destruct (close_open env s Hclosed) as (_ & _ & Hs & _).
      rewrite Hs, Hstop. reflexivity.
Qed.

(** X14.  The stop flag is never cleared, and a capture thread reads it at its
    start.  Once close has stored the flag it stays set through every later
    call; a session that prepareForReading sets up after that gets a thread
    whose loop ends at its first test of the flag: it returns false without
    a wait, a device read or a queue write. *)
Theorem thread_of_stopped_stream_never_captures
    (analyzeStatus : string -> Z -> Result)
    (frameSize framesCount : Z) (prio : ThreadPriority) (env : SetupEnv)
    (s : State) (ops : list Op) (script : list ReadThread.EnvStep) :
  mStopReadThread s = true ->
  setup_result frameSize framesCount prio env (run_ops ops s) = OK ->
  let s1 :=
    exec (prepareForReading frameSize framesCount prio env) (run_ops ops s) in
  mStopReadThread (run_ops ops s) = true
  /\ exists w,
       thread_world s1 = Some w
       /\ eval (threadLoop analyzeStatus script) w = Some false
       /\ new_events w (exec (threadLoop analyzeStatus script) w) =
          [EvLoadStop true].
Proof.
  intros Hstop Hok; cbv zeta.
  assert (Hstop' : mStopReadThread (run_ops ops s) = true)
    by (apply (run_ops_invariant (fun s => mStopReadThread s = true)
                 step_keeps_stop); exact Hstop).
  split; [exact Hstop'|].
  unfold setup_result, eval in Hok.
  destruct (mDataMQ (run_ops ops s)) as [q|] eqn:Hq.
  { rewrite prepareForReading_twice in Hok by now rewrite Hq. discriminate Hok. }
  destruct (prepareForReading_cases frameSize framesCount prio env _ Hq)
    as (Hcase & _ & Hs).
  destruct (setup_fails env) eqn:Hfails.
  { destruct Hcase as (Hres & _). rewrite Hres in Hok. discriminate Hok. }
  destruct Hcase as (_ & Hd & Hsq & He & _).
  unfold setup_fails in Hfails.
  rewrite !orb_false_iff, !negb_false_iff in Hfails.
  destruct Hfails as ((((_ & _) & _) & Hflag) & _).
  destruct (create_flag env) as [flag|] eqn:Hcf; [|discriminate Hflag].
  exists (ReadThread.construct true
            (new_MQ (uint32_mul frameSize framesCount) true) (new_MQ 1 true) flag).
  split.
  { unfold thread_world, exec. now rewrite Hd, Hsq, He, Hs, Hstop'. }
  unfold eval, exec. rewrite threadLoop_stopped by reflexivity; cbn [fst snd].
  split; [reflexivity|].
  apply new_events_app. unfold exec. rewrite load_stop_spec. reflexivity.
Qed.

Lemma thread_of_stopped_stream_never_captures_witness :
  exists w,
    thread_world
      (exec (prepareForReading 2 8 URGENT_AUDIO Sample.setup_ok)
         (run_ops []
            (exec (close Sample.close_ok)
               (exec (prepareForReading 2 8 URGENT_AUDIO Sample.setup_no_thread)
                     init)))) = Some w
    /\ eval (threadLoop Sample.analyzeStatus [Sample.three_bytes]) w = Some false
    /\ new_events w (exec (threadLoop Sample.analyzeStatus [Sample.three_bytes]) w) =
       [EvLoadStop true].
Proof.
  exact (proj2 (thread_of_stopped_stream_never_captures Sample.analyzeStatus
                  2 8 URGENT_AUDIO Sample.setup_ok
                  (exec (close Sample.close_ok)
                     (exec (prepareForReading 2 8 URGENT_AUDIO
                              Sample.setup_no_thread) init))
                  [] [Sample.three_bytes] eq_refl eq_refl)).
Defined.

(** ** The capture position *)

(** X15.  The call getCapturePosition reports a position only with OK.  Without the
    device function the result is NOT_SUPPORTED; whenever the result is not
    OK, frames and time are 0, whatever the device has stored.  With OK
    they are the device's values converted to 64 bits without sign: a value
    that is not negative is reported as it is, a negative one 2^64
    higher. *)
Theorem capture_position_only_with_OK (analyzeStatus : string -> Z -> Result)
    (get_capture_position : option CaptureAnswer) :
  let r := getCapturePosition analyzeStatus get_capture_position in
  let retval := fst (fst r) in
  let frames := snd (fst r) in
  let time := snd r in
  (get_capture_position = None -> retval = NOT_SUPPORTED)
  /\ (retval <> OK -> frames = 0 /\ time = 0)
  /\ 0 <= frames < 2 ^ 64 /\ 0 <= time < 2 ^ 64
  /\ (forall answer,
        get_capture_position = Some answer ->
        retval = analyzeStatus "get_capture_position"%string (capture_status answer)
        /\ (retval = OK ->
            (0 <= halFrames answer < 2 ^ 64 -> frames = halFrames answer)
            /\ (- 2 ^ 64 <= halFrames answer < 0 ->
                frames = halFrames answer + 2 ^ 64)
            /\ (0 <= halTime answer < 2 ^ 64 -> time = halTime answer)
            /\ (- 2 ^ 64 <= halTime answer < 0 ->
                time = halTime answer + 2 ^ 64))).
Proof.
  cbv zeta. unfold getCapturePosition.
  assert (Hmod : forall x, 0 <= to_uint64 x < 2 ^ 64)
    by (intros x; unfold to_uint64; apply Z.mod_pos_bound; lia).
  assert (Hneg : forall x, - 2 ^ 64 <= x < 0 -> to_uint64 x = x + 2 ^ 64).
  { intros x Hx. unfold to_uint64.
    rewrite <- (Z.mod_add x 1 (2 ^ 64)) by lia.
    apply Z.mod_small. lia. }
  destruct get_capture_position as [answer|]; cbn [fst snd].
  - split; [discriminate|].
    destruct (analyzeStatus "get_capture_position"%string (capture_status answer))
      eqn:Hr; cbn [Result_is_OK fst snd].
    + split; [congruence|].
      split; [apply Hmod|]. split; [apply Hmod|].
      intros a [= <-]. split; [now rewrite Hr|]. intros _.
      repeat split; intros Hx; try (apply Hneg; exact Hx);
        unfold to_uint64; apply Z.mod_small; exact Hx.
    + split; [auto|]. split; [lia|]. split; [lia|].
      intros a [= <-]. split; [now rewrite Hr|]. intros H. discriminate H.
    + split; [auto|]. split; [lia|]. split; [lia|].
      intros a [= <-]. split; [now rewrite Hr|]. intros H. discriminate H.
    + split; [auto|]. split; [lia|]. split; [lia|].
      intros a [= <-]. split; [now rewrite Hr|]. intros H. discriminate H.
    + split; [auto|]. split; [lia|]. split; [lia|].
      intros a [= <-]. split; [now rewrite Hr|]. intros H. discriminate H.
  - split; [reflexivity|]. split; [auto|]. split; [lia|]. split; [lia|].
    intros a H; discriminate H.
Qed.

Lemma capture_position_only_with_OK_witness :
  getCapturePosition Sample.analyzeStatus (Some (mkCaptureAnswer 0 (-1) 7)) =
  (OK, 2 ^ 64 - 1, 7)
  /\ getCapturePosition Sample.analyzeStatus (Some (mkCaptureAnswer (-38) 5 7)) =
     (INVALID_STATE, 0, 0).
Proof.
  destruct (capture_position_only_with_OK Sample.analyzeStatus
              (Some (mkCaptureAnswer 0 (-1) 7)))
    as (_ & _ & _ & _ & Hanswer).
  destruct (Hanswer _ eq_refl) as (_ & HOK).
  destruct (HOK eq_refl) as (_ & Hneg & Htime & _).
  destruct (capture_position_only_with_OK Sample.analyzeStatus
              (Some (mkCaptureAnswer (-38) 5 7)))
    as (_ & Hzero & _).
  split; reflexivity.
Defined.
